(** * TN-by-Night backend: event discovery and heat-map aggregation

    A shallow embedding of the algorithmic core of the backend:
    - [utils/heatmap.py]     the governorate taxonomy and the aggregator,
    - [scraping/scraper.py]  the city resolver, the listing crawler and
                             the orchestrator loop,
    - [routes/events.py]     the CSV import (upsert by URL) into the store,
    together with the properties the specification states about them.

    Python values are modelled as follows.
    - [str] is a sequence of Unicode code points, [list N]; literals are
      written as UTF-8 text and decoded by [Py.u].
    - [int] is [Z].
    - a [dict] is an association list with unique keys kept in insertion
      order (Python dictionaries iterate in insertion order, and assigning
      to an existing key keeps its position).
    - an exception is a value of a result type. *)

From Stdlib Require Import List String Ascii NArith ZArith Bool Lia Permutation.
Import ListNotations.

Set Implicit Arguments.

(* ===================================================================== *)
(** * Part I: definitions                                                 *)
(* ===================================================================== *)

(** ** A fragment of Python: strings and dictionaries *)

Module Py.

(** A Python string: its code points. *)
Definition str := list N.

(** UTF-8 decoding of a byte sequence (well-formed input assumed; a
    truncated sequence ends the result). *)
Fixpoint utf8_decode (bs : list N) : str :=
  match bs with
  | [] => []
  | b :: r =>
      if (b <? 128)%N then b :: utf8_decode r
      else if (b <? 224)%N then
        match r with
        | c1 :: r1 => ((b - 192) * 64 + (c1 - 128))%N :: utf8_decode r1
        | _ => []
        end
      else if (b <? 240)%N then
        match r with
        | c1 :: c2 :: r2 =>
            ((b - 224) * 4096 + (c1 - 128) * 64 + (c2 - 128))%N
              :: utf8_decode r2
        | _ => []
        end
      else
        match r with
        | c1 :: c2 :: c3 :: r3 =>
            ((b - 240) * 262144 + (c1 - 128) * 4096
             + (c2 - 128) * 64 + (c3 - 128))%N :: utf8_decode r3
        | _ => []
        end
  end.

(** [u "text"] is the Python literal ['text']. *)
Definition u (s : string) : str :=
  utf8_decode (map N_of_ascii (list_ascii_of_string s)).

(** [a == b] on strings. *)
Fixpoint str_eqb (a b : str) : bool :=
  match a, b with
  | [], [] => true
  | x :: a', y :: b' => (x =? y)%N && str_eqb a' b'
  | _, _ => false
  end.

(** [s in l] for a list of strings [l]. *)
Definition list_mem (s : str) (l : list str) : bool :=
  existsb (str_eqb s) l.

(** Truth value of a string: [''] is false, anything else is true. *)
Definition truthy (s : str) : bool :=
  match s with [] => false | _ :: _ => true end.

(** [c.isspace()] for one code point: the Unicode white-space set. *)
Definition isspace (c : N) : bool :=
  ((9 <=? c) && (c <=? 13) || (28 <=? c) && (c <=? 32)
   || (c =? 133) || (c =? 160) || (c =? 5760)
   || (8192 <=? c) && (c <=? 8202)
   || (c =? 8232) || (c =? 8233) || (c =? 8239) || (c =? 8287)
   || (c =? 12288))%N.

(** [s.lstrip()], [s.rstrip()] and [s.strip()]. *)
Fixpoint lstrip (s : str) : str :=
  match s with
  | c :: s' => if isspace c then lstrip s' else s
  | [] => []
  end.

Definition rstrip (s : str) : str := rev (lstrip (rev s)).

Definition strip (s : str) : str := rstrip (lstrip s).

(** [s.startswith(p)]. *)
Fixpoint startswith (s p : str) : bool :=
  match p, s with
  | [], _ => true
  | x :: p', y :: s' => (x =? y)%N && startswith s' p'
  | _ :: _, [] => false
  end.

(** [p in s] for strings: substring containment. *)
Fixpoint contains (s p : str) : bool :=
  startswith s p || match s with [] => false | _ :: s' => contains s' p end.

(** Dictionaries keyed by strings. *)
Definition dict (V : Type) := list (str * V).

Section Dict.
Variable V : Type.

(** [d.get(k)], [None] when the key is absent. *)
Fixpoint dict_get (d : dict V) (k : str) : option V :=
  match d with
  | [] => None
  | (k', v) :: d' => if str_eqb k k' then Some v else dict_get d' k
  end.

(** [k in d]. *)
Definition dict_mem (k : str) (d : dict V) : bool :=
  match dict_get d k with Some _ => true | None => false end.

(** [d.get(k, dflt)]. *)
Definition dict_get_default (d : dict V) (k : str) (dflt : V) : V :=
  match dict_get d k with Some v => v | None => dflt end.

(** [d[k] = v]: an existing key keeps its position, a new key goes
    last. *)
Fixpoint dict_set (d : dict V) (k : str) (v : V) : dict V :=
  match d with
  | [] => [(k, v)]
  | (k', v') :: d' =>
      if str_eqb k k' then (k', v) :: d'
      else (k', v') :: dict_set d' k v
  end.

(** [d[k] = f(d[k])], the shape of [d[k] += 1] and of the in-place
    updates of a stored record.  Python raises [KeyError] when the key
    is absent; every use below is guarded by [k in d], and the model
    leaves [d] as it is there. *)
Definition dict_update (d : dict V) (k : str) (f : V -> V) : dict V :=
  match dict_get d k with
  | Some v => dict_set d k (f v)
  | None => d
  end.

(** [list(d.keys())] and [list(d.values())]. *)
Definition keys (d : dict V) : list str := map fst d.
Definition values (d : dict V) : list V := map snd d.

(** [{k: f(k) for k in ks}]. *)
Definition dict_comprehension (f : str -> V) (ks : list str) : dict V :=
  fold_left (fun d k => dict_set d k (f k)) ks [].

(** The dictionary that binds every key of [ks] to [f k], in the order
    of [ks]: the closed form the loops below are compared with. *)
Definition tabulate (f : str -> V) (ks : list str) : dict V :=
  map (fun k => (k, f k)) ks.
End Dict.

(** No string occurs twice in [l]. *)
Fixpoint nodupb (l : list str) : bool :=
  match l with
  | [] => true
  | x :: l' => negb (list_mem x l') && nodupb l'
  end.

(** [sum(l)] for a list of integers. *)
Definition sum_ints (l : list Z) : Z := fold_left Z.add l 0%Z.

(** [len(l)] as a Python integer. *)
Definition len (A : Type) (l : list A) : Z := Z.of_nat (List.length l).

End Py.

Import Py.

(** ** [utils/heatmap.py] *)

Module heatmap.

Local Open Scope string_scope.

(** All 24 governorates, in the order of the source. *)
Definition TUNISIAN_GOVERNORATES : list str := map u
  [ "Ariana"; "Béja"; "Ben Arous"; "Bizerte"; "Gabès"; "Gafsa";
    "Jendouba"; "Kairouan"; "Kasserine"; "Kebili"; "Kef"; "Mahdia";
    "Manouba"; "Medenine"; "Monastir"; "Nabeul"; "Sfax"; "Sidi Bouzid";
    "Siliana"; "Sousse"; "Tataouine"; "Tozeur"; "Tunis"; "Zaghouan" ].

(** City to governorate table, a dict literal in the order of the source. *)
Definition CITY_TO_GOVERNORATE : dict str :=
  map (fun kv => (u (fst kv), u (snd kv)))
  [ ("Tunis", "Tunis"); ("Ariana", "Ariana"); ("Ben Arous", "Ben Arous");
    ("Manouba", "Manouba"); ("Nabeul", "Nabeul"); ("Zaghouan", "Zaghouan");
    ("Bizerte", "Bizerte"); ("Béja", "Béja"); ("Jendouba", "Jendouba");
    ("Kef", "Kef"); ("Siliana", "Siliana"); ("Sousse", "Sousse");
    ("Monastir", "Monastir"); ("Mahdia", "Mahdia"); ("Sfax", "Sfax");
    ("Kairouan", "Kairouan"); ("Kasserine", "Kasserine");
    ("Sidi Bouzid", "Sidi Bouzid"); ("Gabès", "Gabès");
    ("Medenine", "Medenine"); ("Tataouine", "Tataouine");
    ("Gafsa", "Gafsa"); ("Tozeur", "Tozeur"); ("Kebili", "Kebili") ].

(** The event record handed to the aggregator.  [city] is [None] when the
    dictionary has no ['city'] key, the case [event.get('city', '')]
    covers. *)
Record event : Type := Event {
  name : str;
  place : str;
  date : str;
  price : str;
  url : str;
  city : option str;
  scraped_at : str
}.

(** [event.get('city', '')]. *)
Definition get_city (e : event) : str :=
  match city e with Some c => c | None => [] end.

Definition BLUE : str := u "#3388FF".
Definition YELLOW : str := u "#FFD700".
Definition ORANGE : str := u "#FF8800".
Definition RED : str := u "#FF0000".

Definition get_color_for_score (score : Z) : str :=
  if (score =? 0)%Z then BLUE
  else if ((1 <=? score) && (score <=? 3))%Z then YELLOW
  else if ((4 <=? score) && (score <=? 6))%Z then ORANGE
  else RED.

(** The sentinel list [['Unknown', 'Error', 'Pending']]. *)
Definition SENTINELS : list str := [u "Unknown"; u "Error"; u "Pending"].

(** The guard [not city or city in ['Unknown', 'Error', 'Pending']]. *)
Definition skipped (city : str) : bool :=
  negb (truthy city) || list_mem city SENTINELS.

(** One iteration of the loop of [calculate_governorate_scores]. *)
Definition scores_step (scores : dict Z) (e : event) : dict Z :=
  let city := strip (get_city e) in
  if skipped city then scores
  else
    let governorate := dict_get_default CITY_TO_GOVERNORATE city city in
    if dict_mem governorate scores then
      dict_update scores governorate (fun s => s + 1)%Z
    else if dict_mem city scores then
      dict_update scores city (fun s => s + 1)%Z
    else scores.

Definition calculate_governorate_scores (events : list event) : dict Z :=
  let scores := dict_comprehension (fun _ => 0%Z) TUNISIAN_GOVERNORATES in
  fold_left scores_step events scores.

(** A bucket of [get_heatmap_data]. *)
Record bucket : Type := Bucket {
  score : Z;
  color : str;
  events_count : Z;
  events : list event
}.

(** The body of [if target_gov:] applied to the bucket [data]. *)
Definition bucket_add (e : event) (data : bucket) : bucket :=
  let data1 := Bucket (score data) (color data)
                      (events_count data + 1) (events data) in
  let data2 := Bucket (score data1 + 1) (color data1)
                      (events_count data1) (events data1) in
  let data3 := Bucket (score data2) (get_color_for_score (score data2))
                      (events_count data2) (events data2) in
  if (len (events data3) <? 5)%Z then
    Bucket (score data3) (color data3) (events_count data3)
           (events data3 ++ [e])
  else data3.

(** One iteration of the loop of [get_heatmap_data]. *)
Definition heatmap_step (heatmap_data : dict bucket) (e : event)
  : dict bucket :=
  let city := strip (get_city e) in
  if skipped city then heatmap_data
  else
    let governorate := dict_get_default CITY_TO_GOVERNORATE city city in
    let target_gov : option str :=
      if dict_mem governorate heatmap_data then Some governorate
      else if dict_mem city heatmap_data then Some city
      else None in
    match target_gov with
    | Some g =>
        if truthy g then dict_update heatmap_data g (bucket_add e)
        else heatmap_data
    | None => heatmap_data
    end.

Definition get_heatmap_data (events : list event) : dict bucket :=
  let heatmap_data :=
    dict_comprehension
      (fun _ => Bucket 0 (get_color_for_score 0) 0 [])
      TUNISIAN_GOVERNORATES in
  fold_left heatmap_step events heatmap_data.

(** The dictionary returned by [get_heatmap_summary]. *)
Record summary : Type := Summary {
  total_events : Z;
  active_governorates : Z;
  total_governorates : Z;
  governorates_with_events : list str
}.

Definition get_heatmap_summary (events : list event) : summary :=
  let scores := calculate_governorate_scores events in
  let total_events := sum_ints (values scores) in
  let active_governorates :=
    sum_ints (map (fun _ => 1%Z) (filter (fun s => (s >? 0)%Z) (values scores))) in
  Summary total_events active_governorates
          (len TUNISIAN_GOVERNORATES)
          (map fst (filter (fun gs => (snd gs >? 0)%Z) scores)).

(** The function the equivalence claim compares with: one test of
    [CITY_TO_GOVERNORATE.get(city, city)] against the buckets, without
    the fallback branch on the raw city. *)
Definition simplified_step (scores : dict Z) (e : event) : dict Z :=
  let city := strip (get_city e) in
  if skipped city then scores
  else
    let governorate := dict_get_default CITY_TO_GOVERNORATE city city in
    if dict_mem governorate scores then
      dict_update scores governorate (fun s => s + 1)%Z
    else scores.

Definition simplified_governorate_scores (events : list event) : dict Z :=
  let scores := dict_comprehension (fun _ => 0%Z) TUNISIAN_GOVERNORATES in
  fold_left simplified_step events scores.

End heatmap.

(** ** What the aggregator is specified to compute

    The notions the statements below are phrased in: the bucket an event
    falls in, and the events of a list that fall in a given bucket. *)

Module heatmap_spec.
Import heatmap.

(** [CITY_TO_GOVERNORATE.get(city, city)]. *)
Definition normalize (city : str) : str :=
  dict_get_default CITY_TO_GOVERNORATE city city.

(** The governorate an event is counted for, read against the taxonomy
    list: none for a skipped city, else the normalized city when it is a
    governorate, else the raw city when it is one. *)
Definition bucket_of (e : event) : option str :=
  let city := strip (get_city e) in
  if skipped city then None
  else if list_mem (normalize city) TUNISIAN_GOVERNORATES
       then Some (normalize city)
  else if list_mem city TUNISIAN_GOVERNORATES then Some city
  else None.

(** The event resolves to some governorate bucket. *)
Definition resolves (e : event) : bool :=
  match bucket_of e with Some _ => true | None => false end.

(** The event falls in bucket [g]. *)
Definition falls_in (g : str) (e : event) : bool :=
  match bucket_of e with Some g' => str_eqb g' g | None => false end.

(** The events of [l] that fall in bucket [g], in input order. *)
Definition matching (g : str) (l : list event) : list event :=
  filter (falls_in g) l.

(** The bucket of [g] after the events [l]. *)
Definition bucket_after (g : str) (l : list event) : bucket :=
  let m := matching g l in
  Bucket (len m) (get_color_for_score (len m)) (len m) (firstn 5 m).

(** The score of governorate [g] in [scores] is not zero. *)
Definition nonzero_score (scores : dict Z) (g : str) : bool :=
  negb (dict_get_default scores g 0 =? 0)%Z.

End heatmap_spec.

(** ** [scraping/scraper.py] *)

Module scraper.
Import heatmap.

Local Open Scope string_scope.
Local Open Scope list_scope.

Definition TUNISIAN_CITIES : list str := map u
  [ "Tunis"; "Ariana"; "Ben Arous"; "Manouba"; "Nabeul"; "Zaghouan";
    "Bizerte"; "Béja"; "Jendouba"; "Kef"; "Siliana"; "Sousse";
    "Monastir"; "Mahdia"; "Sfax"; "Kairouan"; "Kasserine"; "Sidi Bouzid";
    "Gabès"; "Medenine"; "Tataouine"; "Gafsa"; "Tozeur"; "Kebili" ].

Definition CITY_ALIASES : dict str :=
  map (fun kv => (u (fst kv), u (snd kv)))
  [ ("monastir", "Monastir"); ("mehdia", "Mahdia"); ("mahdia", "Mahdia");
    ("sfax", "Sfax"); ("sousse", "Sousse"); ("kairouan", "Kairouan") ].

Definition VENUE_CITY_MAP : dict str :=
  map (fun kv => (u (fst kv), u (snd kv)))
  [ ("théâtre municipal", "Tunis"); ("theatre municipal", "Tunis");
    ("colisée", "Tunis"); ("4ème art", "Tunis");
    ("africa art center", "Tunis"); ("complexe culturel sfax", "Sfax");
    ("maison de la culture mahdia", "Mahdia");
    ("maison de la culture monastir", "Monastir") ].

(** The character tables of the interpreter that the resolver relies on:
    [str.lower()] and the word characters [\w] of the [re] module. *)
Class Unicode : Type := {
  lower : str -> str;
  is_word : N -> bool
}.

(** The tables restricted to Latin-1: they agree with the interpreter on
    every string of code points below 256, which covers all the tables
    above. *)
Definition latin1_lower_char (c : N) : N :=
  if ((65 <=? c) && (c <=? 90)
      || (192 <=? c) && (c <=? 222) && negb (c =? 215))%N
  then (c + 32)%N else c.

Definition latin1_is_word (c : N) : bool :=
  ((48 <=? c) && (c <=? 57) || (65 <=? c) && (c <=? 90) || (c =? 95)
   || (97 <=? c) && (c <=? 122)
   || (c =? 170) || (c =? 178) || (c =? 179) || (c =? 181)
   || (c =? 185) || (c =? 186) || (188 <=? c) && (c <=? 190)
   || (192 <=? c) && (c <=? 214) || (216 <=? c) && (c <=? 246)
   || (248 <=? c) && (c <=? 255))%N.

Definition latin1 : Unicode :=
  {| lower := map latin1_lower_char; is_word := latin1_is_word |}.

(** An operation that may raise. *)
Inductive result (A : Type) : Type :=
| Ok (a : A)
| Raise.
Arguments Ok {A} a.
Arguments Raise {A}.

Definition bind {A B : Type} (r : result A) (k : A -> result B)
  : result B :=
  match r with Ok a => k a | Raise => Raise end.

Notation "x <- r ;; k" := (bind r (fun x => k))
  (at level 61, r at next level, right associativity).

(** The browser page as the resolver uses it.  [goto url] is the
    navigation [page.goto(url, ...)] with the wait that follows it;
    [query_selector_all url sel] lists the blocks matching [sel] on the
    page loaded from [url], each standing for the outcome of its
    [inner_text()]. *)
Record Page : Type := {
  goto : str -> result unit;
  query_selector_all : str -> str -> result (list (result str))
}.

Section Resolver.
Context {U : Unicode}.

Definition is_word_at (c : option N) : bool :=
  match c with Some x => is_word x | None => false end.

(** [\b] between two neighbouring positions. *)
Definition boundary (before after : option N) : bool :=
  xorb (is_word_at before) (is_word_at after).

(** [\bpat\b] matches at the start of [text], [prev] being the
    character before it.  The patterns used are letters and spaces,
    which a regular expression matches literally. *)
Definition match_here (prev : option N) (text pat : str) : bool :=
  boundary prev (hd_error text)
  && startswith text pat
  && boundary (last (map Some pat) prev)
              (hd_error (skipn (List.length pat) text)).

Fixpoint search_from (prev : option N) (text pat : str) : bool :=
  match_here prev text pat
  || match text with
     | [] => false
     | c :: rest => search_from (Some c) rest pat
     end.

(** [re.search(rf'\b{pat}\b', text)] as a truth value. *)
Definition search_word (pat text : str) : bool :=
  search_from None text pat.

(** Tier 1: the first alias, in table order, found in the title. *)
Definition title_tier (event_name : option str) : option str :=
  match event_name with
  | Some n =>
      if truthy n then
        let lowered := lower n in
        option_map snd
          (find (fun kc => search_word (fst kc) lowered) CITY_ALIASES)
      else None
  | None => None
  end.

(** The double quote inside the selectors. *)
Definition dq : str := [34%N].

Definition attr_selector (tag value : string) : str :=
  u tag ++ u "[class*=" ++ dq ++ u value ++ dq ++ u "]".

Definition address_selectors : list str :=
  [ attr_selector "div" "address";
    attr_selector "div" "location";
    attr_selector "span" "address";
    attr_selector "p" "address" ].

Definition venue_selector : str :=
  attr_selector "div" "venue" ++ u ", div.short_info, p".

(** The inner loop of tier 2 on one block text (already lower-cased):
    the first city of [TUNISIAN_CITIES] found as a whole word. *)
Definition city_in_text (text : str) : option str :=
  find (fun city => search_word (lower city) text) TUNISIAN_CITIES.

(** The inner loop of tier 3 on one block text: the city of the first
    venue of [VENUE_CITY_MAP] contained in the text. *)
Definition venue_in_text (text : str) : option str :=
  option_map snd
    (find (fun vc => contains text (fst vc)) VENUE_CITY_MAP).

(** [for block in blocks: text = (await block.inner_text()).lower(); ...]
    with a return on the first hit. *)
Fixpoint scan_blocks (hit : str -> option str)
         (blocks : list (result str)) : result (option str) :=
  match blocks with
  | [] => Ok None
  | block :: rest =>
      text <- block ;;
      match hit (lower text) with
      | Some city => Ok (Some city)
      | None => scan_blocks hit rest
      end
  end.

(** [for selector in address_selectors: ...]. *)
Fixpoint scan_selectors (page : Page) (event_url : str)
         (selectors : list str) : result (option str) :=
  match selectors with
  | [] => Ok None
  | selector :: rest =>
      blocks <- query_selector_all page event_url selector ;;
      found <- scan_blocks city_in_text blocks ;;
      match found with
      | Some city => Ok (Some city)
      | None => scan_selectors page event_url rest
      end
  end.

(** The body of the [try] block. *)
Definition extract_city_body (page : Page) (event_url : str)
           (event_name : option str) : result str :=
  _ <- goto page event_url ;;
  match title_tier event_name with
  | Some city => Ok city
  | None =>
      found <- scan_selectors page event_url address_selectors ;;
      match found with
      | Some city => Ok city
      | None =>
          venue_blocks <-
            query_selector_all page event_url venue_selector ;;
          found <- scan_blocks venue_in_text venue_blocks ;;
          match found with
          | Some city => Ok city
          | None => Ok (u "Unknown")
          end
      end
  end.

(** [except Exception: return 'Error']. *)
Definition extract_city_from_event_page (page : Page) (event_url : str)
           (event_name : option str) : str :=
  match extract_city_body page event_url event_name with
  | Ok city => city
  | Raise => u "Error"
  end.

(** One item container of the listing, as the crawler reads it:
    the [.img_container a] element and its [href] attribute, the inner
    texts of the elements it looks up ([None] for a missing element),
    and the clock reading taken when the item is recorded. *)
Record container : Type := {
  link : option (option str);
  title_strong : option str;
  title_h3 : option str;
  short_info : option str;
  rating_small : option str;
  short_info_price : option str;
  clock : str
}.

Definition ORIGIN : str := u "https://teskerti.tn".

(** [if not href.startswith('http'): href = f"https://teskerti.tn{href}"]. *)
Definition absolute (href : str) : str :=
  if startswith href (u "http") then href else ORIGIN ++ href.

(** The first line of [s], as [split] on the newline character gives
    it. *)
Fixpoint first_line (s : str) : str :=
  match s with
  | [] => []
  | c :: s' => if (c =? 10)%N then [] else c :: first_line s'
  end.

(** The dictionary appended for an item whose URL is [href]. *)
Definition make_event (href : str) (c : container) : event :=
  let title_el :=
    match title_strong c with Some t => Some t | None => title_h3 c end in
  {| name := match title_el with Some t => strip t | None => u "Unknown" end;
     place := match short_info c with
              | Some t => strip (first_line t)
              | None => u "N/A"
              end;
     date := match rating_small c with
             | Some t => strip t
             | None => u "N/A"
             end;
     price := match short_info_price c with
              | Some t => strip t
              | None => u "N/A"
              end;
     url := href;
     city := Some (u "Pending");
     scraped_at := clock c |}.

(** One iteration of [for container in containers], on the pair of the
    list [events] and the set [seen_urls]. *)
Definition crawl_step (st : list event * list str) (c : container)
  : list event * list str :=
  let (events, seen_urls) := st in
  match link c with
  | None => st
  | Some None => st
  | Some (Some href) =>
      if negb (truthy href) then st
      else
        let href := absolute href in
        if list_mem href seen_urls then st
        else (events ++ [make_event href c], href :: seen_urls)
  end.

(** The extraction loop: the events of the listing, city pending. *)
Definition crawl (containers : list container) : list event :=
  fst (fold_left crawl_step containers ([], [])).

(** The body of the resolution loop for one event. *)
Definition resolve_event (page : Page) (e : event) : event :=
  let city := extract_city_from_event_page page (url e) (Some (name e)) in
  let city := if str_eqb city (u "Unknown") then u "Tunis" else city in
  {| name := name e; place := place e; date := date e; price := price e;
     url := url e; city := Some city; scraped_at := scraped_at e |}.

(** [scrape_events], from the item containers found on the listing. *)
Definition scrape_events (page : Page) (containers : list container)
  : list event :=
  map (resolve_event page) (crawl containers).
End Resolver.
End scraper.

(** ** What the crawler is specified to produce *)

Module scraper_spec.
Import scraper.
Local Open Scope string_scope.

(** The absolute URL of an item, when it has a link with a non-empty
    [href]. *)
Definition item_url (c : container) : option str :=
  match link c with
  | Some (Some href) => if truthy href then Some (absolute href) else None
  | _ => None
  end.

(** The items of [cs] that carry a URL not carried by an item of [cs]
    before them ([seen] holding the URLs met before [cs]), each with its
    URL, in listing order. *)
Fixpoint first_occurrences (seen : list str) (cs : list container)
  : list (str * container) :=
  match cs with
  | [] => []
  | c :: rest =>
      match item_url c with
      | Some h =>
          if list_mem h seen then first_occurrences seen rest
          else (h, c) :: first_occurrences (h :: seen) rest
      | None => first_occurrences seen rest
      end
  end.

(** [e'] is the event [e] of the crawl as the orchestrator returns it: the
    other fields as they are, the city set from the resolver's answer for
    [e], ['Tunis'] standing in for ['Unknown']. *)
Definition resolved_from {U : Unicode} (page : Page)
           (e e' : heatmap.event) : Prop :=
  heatmap.name e' = heatmap.name e /\
  heatmap.place e' = heatmap.place e /\
  heatmap.date e' = heatmap.date e /\
  heatmap.price e' = heatmap.price e /\
  heatmap.url e' = heatmap.url e /\
  heatmap.scraped_at e' = heatmap.scraped_at e /\
  let answer :=
    extract_city_from_event_page page (heatmap.url e)
      (Some (heatmap.name e)) in
  (answer = u "Unknown" -> heatmap.city e' = Some (u "Tunis")) /\
  (answer = u "Error" -> heatmap.city e' = Some (u "Error")) /\
  (answer <> u "Unknown" -> heatmap.city e' = Some answer).

(** The event recorded for a kept item. *)
Definition recorded (hc : str * container) : heatmap.event :=
  make_event (fst hc) (snd hc).

(** Two pages to run the resolver on: one whose navigation raises, and
    one that loads and shows an address block naming Sfax. *)
Definition unreachable_page : Page :=
  {| goto := fun _ => Raise;
     query_selector_all := fun _ _ => Ok [] |}.

Definition sfax_page : Page :=
  {| goto := fun _ => Ok tt;
     query_selector_all := fun _ selector =>
       if str_eqb selector (attr_selector "div" "address")
       then Ok [Ok (u "12 avenue Hedi Chaker, Sfax")]
       else Ok [] |}.

(** A page that loads and has no block at all. *)
Definition empty_page : Page :=
  {| goto := fun _ => Ok tt;
     query_selector_all := fun _ _ => Ok [] |}.
End scraper_spec.

(** ** [models.py] and [routes/events.py]: the CSV import *)

Module events.

Local Open Scope string_scope.
Local Open Scope list_scope.

(** A point in time ([datetime]). *)
Definition datetime := Z.

(** A row of the [events] table ([models.Event]). *)
Record Event : Type := {
  id : Z;
  name : str;
  place : str;
  date : str;
  price : str;
  url : str;
  city : str;
  status : str;
  suggested_by_id : option Z;
  scraped_at : datetime;
  created_at : datetime;
  updated_at : datetime
}.

(** The database session: the rows as last committed, and the rows as
    the session sees them, pending changes included. *)
Record session : Type := {
  committed : list Event;
  view : list Event
}.

(** [db.session.rollback()] and [db.session.commit()]. *)
Definition rollback (s : session) : session :=
  {| committed := committed s; view := committed s |}.

Definition commit (s : session) : session :=
  {| committed := view s; view := view s |}.

(** [Event.query.filter_by(url=u).first()]. *)
Definition first_by_url (rows : list Event) (u0 : str) : option Event :=
  find (fun r => str_eqb (url r) u0) rows.

(** The in-place change of the object [first_by_url] returned: the first
    row with that URL becomes [f] of itself. *)
Fixpoint change_first (rows : list Event) (u0 : str) (f : Event -> Event)
  : list Event :=
  match rows with
  | [] => []
  | r :: rest =>
      if str_eqb (url r) u0 then f r :: rest
      else r :: change_first rest u0 f
  end.

(** The primary key the database gives a new row: one more than the
    largest key in the session's view. *)
Definition next_id (rows : list Event) : Z :=
  (fold_left Z.max (map id rows) 0 + 1)%Z.

(** What can go wrong inside the [try] of one row: nothing, an
    [IntegrityError] raised by the database, or another exception with
    its message. *)
Inductive fault : Type :=
| NoFault
| IntegrityFault
| OtherFault (message : str).

(** The running state of the import. *)
Record import_state : Type := {
  db : session;
  imported : Z;
  skipped : Z;
  errors : list str
}.

Section CsvImport.
(** [datetime.fromisoformat(s.replace('Z', '+00:00'))], [None] when it
    raises, and the clock [datetime.utcnow()]. *)
Variable fromisoformat : str -> option datetime.
Variable utcnow : datetime.

(** The [scraped_at] of a CSV row. *)
Definition row_scraped_at (row : dict str) : option datetime :=
  match dict_get row (u "scraped_at") with
  | Some s =>
      if truthy s then
        match fromisoformat s with
        | Some t => Some t
        | None => Some utcnow
        end
      else None
  | None => None
  end.

(** The branch [if existing:] on the stored row. *)
Definition update_existing (row : dict str) (existing : Event) : Event :=
  {| id := id existing;
     name := dict_get_default row (u "name") (name existing);
     place := dict_get_default row (u "place") (place existing);
     date := dict_get_default row (u "date") (date existing);
     price := dict_get_default row (u "price") (price existing);
     url := url existing;
     city := dict_get_default row (u "city") (city existing);
     status := u "approved";
     suggested_by_id := suggested_by_id existing;
     scraped_at := match row_scraped_at row with
                   | Some t => t
                   | None => scraped_at existing
                   end;
     created_at := created_at existing;
     updated_at := utcnow |}.

(** The branch [else:], the new row. *)
Definition new_event (rows : list Event) (row : dict str) : Event :=
  {| id := next_id rows;
     name := dict_get_default row (u "name") (u "Unknown");
     place := dict_get_default row (u "place") (u "N/A");
     date := dict_get_default row (u "date") (u "N/A");
     price := dict_get_default row (u "price") (u "N/A");
     url := dict_get_default row (u "url") [];
     city := dict_get_default row (u "city") (u "Unknown");
     status := u "approved";
     suggested_by_id := None;
     scraped_at := match row_scraped_at row with
                   | Some t => t
                   | None => utcnow
                   end;
     created_at := utcnow;
     updated_at := utcnow |}.

(** One iteration of [for row in reader], [f] telling what the [try]
    body runs into. *)
Definition import_row (st : import_state) (rf : dict str * fault)
  : import_state :=
  let (row, f) := rf in
  match f with
  | NoFault =>
      let u0 := dict_get_default row (u "url") [] in
      match first_by_url (view (db st)) u0 with
      | Some _ =>
          {| db := {| committed := committed (db st);
                      view := change_first (view (db st)) u0
                                (update_existing row) |};
             imported := imported st;
             skipped := (skipped st + 1)%Z;
             errors := errors st |}
      | None =>
          {| db := {| committed := committed (db st);
                      view := view (db st)
                              ++ [new_event (view (db st)) row] |};
             imported := (imported st + 1)%Z;
             skipped := skipped st;
             errors := errors st |}
      end
  | IntegrityFault =>
      {| db := rollback (db st);
         imported := imported st;
         skipped := (skipped st + 1)%Z;
         errors := errors st |}
  | OtherFault message =>
      {| db := db st;
         imported := imported st;
         skipped := skipped st;
         errors := errors st ++ [u "Error processing row: " ++ message] |}
  end.

(** The JSON body of the answer: [imported], [updated] and
    [errors] ([None] when there is none). *)
Record response : Type := {
  success : bool;
  resp_imported : Z;
  resp_updated : Z;
  resp_errors : option (list str)
}.

(** How the request ends: the answer 200 with its body, or the answer 500
    of the outer [except] with its message; either way with the table as
    committed. *)
Inductive outcome : Type :=
| Answer200 (table : list Event) (body : response)
| Abort500 (table : list Event) (message : str).

(** [handle_csv_import] on the rows read from the file, from the
    committed table [rows0].  [late] is the exception, if any, raised
    outside the per-row [try]: by the reader or by the final commit. *)
Definition handle_csv_import (rows0 : list Event)
           (rows : list (dict str * fault)) (late : option str) : outcome :=
  let st0 := {| db := {| committed := rows0; view := rows0 |};
                imported := 0; skipped := 0; errors := [] |} in
  let st := fold_left import_row rows st0 in
  match late with
  | None =>
      Answer200 (committed (commit (db st)))
        {| success := true;
           resp_imported := imported st;
           resp_updated := skipped st;
           resp_errors := match errors st with
                          | [] => None
                          | _ :: _ => Some (errors st)
                          end |}
  | Some message =>
      Abort500 (committed (rollback (db st)))
        (u "Error importing CSV: " ++ message)
  end.
End CsvImport.
End events.

(** ** Sample data for the import *)

Module events_spec.
Import events.
Local Open Scope string_scope.

(** A suggestion waiting for approval, already in the store. *)
Definition pending_event : Event :=
  {| id := 7%Z;
     name := u "Gala (suggestion)";
     place := u "TBD";
     date := u "TBD";
     price := u "TBD";
     url := u "https://teskerti.tn/event/42";
     city := u "Sfax";
     status := u "pending";
     suggested_by_id := Some 3%Z;
     scraped_at := 10%Z;
     created_at := 10%Z;
     updated_at := 10%Z |}.

(** A CSV row for the same URL. *)
Definition scraped_row : dict str :=
  [ (u "name", u "Gala"); (u "place", u "Sfax"); (u "date", u "N/A");
    (u "price", u "20 DT"); (u "url", u "https://teskerti.tn/event/42");
    (u "city", u "Sfax"); (u "scraped_at", u "2024-01-01T00:00:00") ].

(** A parser that knows that one time stamp, and a clock reading. *)
Definition sample_fromisoformat (s : str) : option datetime :=
  if str_eqb s (u "2024-01-01T00:00:00") then Some 20%Z else None.

Definition sample_utcnow : datetime := 30%Z.

(** The import state at the start, the store holding the suggestion. *)
Definition sample_state : import_state :=
  {| db := {| committed := [pending_event]; view := [pending_event] |};
     imported := 0%Z; skipped := 0%Z; errors := [] |}.
End events_spec.

From Stdlib Require Import Sorted.

(** ** Notions for the further properties of the scraper *)

(** The first character of a string, if any, is not white space. *)
Definition clean_head (s : str) : Prop :=
  match s with [] => True | c :: _ => isspace c = false end.

Module scraper_laws.
Import scraper.
Local Open Scope string_scope.
Local Open Scope list_scope.

(** All the selectors of tier 2 read blocks that name no city. *)
Definition address_blocks_silent {U : Unicode} (page : Page)
           (event_url : str) : Prop :=
  Forall (fun selector =>
            exists texts,
              query_selector_all page event_url selector
              = Ok (map Ok texts) /\
              Forall (fun t => city_in_text (lower t) = None) texts)
         address_selectors.

(** [\b] holds in [text] between the part [before] and the part [after]. *)
Definition boundary_between {U : Unicode} (before after : str) : bool :=
  boundary (last (map Some before) None) (hd_error after).
End scraper_laws.

(** ** Notions for the further properties of the import *)

Module events_laws.
Import events.
Local Open Scope string_scope.
Local Open Scope list_scope.

(** [row.get('url', '')]. *)
Definition row_url (row : dict str) : str :=
  dict_get_default row (u "url") [].


(** The table as committed when the request ends. *)
Definition table_of (o : outcome) : list Event :=
  match o with
  | Answer200 table _ => table
  | Abort500 table _ => table
  end.

(** The number of messages in the [errors] field of the answer. *)
Definition errors_count (body : response) : Z :=
  match resp_errors body with
  | None => 0%Z
  | Some messages => len messages
  end.

Definition is_integrity (rf : dict str * fault) : bool :=
  match snd rf with IntegrityFault => true | _ => false end.

Definition is_other (rf : dict str * fault) : bool :=
  match snd rf with OtherFault _ => true | _ => false end.
End events_laws.

(** ** [models.Event.to_dict] and [routes/heatmap.py] *)

Module routes_heatmap.
Import heatmap.
Local Open Scope string_scope.
Local Open Scope list_scope.

(** [Event.query.filter_by(status=s).all()], in table order. *)
Definition filter_by_status (s : str) (table : list events.Event)
  : list events.Event :=
  filter (fun r => str_eqb (events.status r) s) table.

(** [sorted(l, key=lambda x: x[1], reverse=True)].  Python's sort is
    stable, with [reverse=True] as well: entries with equal keys keep
    their order.  That fixes the result, which insertion computes. *)
Fixpoint insert_desc (x : str * Z) (l : list (str * Z)) : list (str * Z) :=
  match l with
  | [] => [x]
  | y :: l' =>
      if (snd y <=? snd x)%Z then x :: l else y :: insert_desc x l'
  end.

Definition sorted_desc (l : list (str * Z)) : list (str * Z) :=
  fold_right insert_desc [] l.

(** The array form of the answer: [heatmap_data[gov]] for every [gov] of
    the taxonomy, [None] standing for the [KeyError] of a missing key. *)
Fixpoint data_array (heatmap_data : dict bucket) (govs : list str)
  : option (list (str * bucket)) :=
  match govs with
  | [] => Some []
  | gov :: rest =>
      match dict_get heatmap_data gov with
      | Some b =>
          match data_array heatmap_data rest with
          | Some entries => Some ((gov, b) :: entries)
          | None => None
          end
      | None => None
      end
  end.

Section Routes.
(** [datetime.isoformat()]. *)
Variable isoformat : events.datetime -> str.

(** [Event.to_dict()], as the event record of the aggregator: the keys
    [id], [status], [created_at] and [updated_at] of the dictionary, which
    the aggregator never reads, have no field in that record. *)
Definition to_dict (r : events.Event) : event :=
  {| name := events.name r;
     place := events.place r;
     date := events.date r;
     price := events.price r;
     url := events.url r;
     city := Some (events.city r);
     scraped_at := isoformat (events.scraped_at r) |}.

(** The body of the answer of [HeatmapData.get]. *)
Record heatmap_answer : Type := {
  hm_summary : summary;
  hm_governorates : dict bucket;
  hm_data : list (str * bucket)
}.

(** [HeatmapData.get] on the stored table; [None] if building the array
    raises. *)
Definition HeatmapData_get (table : list events.Event)
  : option heatmap_answer :=
  let events := filter_by_status (u "approved") table in
  let events_data := map to_dict events in
  let heatmap_data := get_heatmap_data events_data in
  let summary := get_heatmap_summary events_data in
  match data_array heatmap_data TUNISIAN_GOVERNORATES with
  | Some data =>
      Some {| hm_summary := summary;
              hm_governorates := heatmap_data;
              hm_data := data |}
  | None => None
  end.

(** [HeatmapStats.get]: the summary and the list [top_governorates] of
    pairs (governorate, events_count). *)
Definition HeatmapStats_get (table : list events.Event)
  : summary * list (str * Z) :=
  let events := filter_by_status (u "approved") table in
  let events_data := map to_dict events in
  let summary := get_heatmap_summary events_data in
  let heatmap_data := get_heatmap_data events_data in
  let top_governorates :=
    firstn 10
      (sorted_desc (map (fun gd => (fst gd, score (snd gd))) heatmap_data))
  in
  (summary, top_governorates).
End Routes.

(** The stored events with status ['approved'] whose stripped city is
    [g]. *)
Definition approved_in (g : str) (table : list events.Event)
  : list events.Event :=
  filter (fun r => str_eqb (events.status r) (u "approved")
                   && str_eqb (strip (events.city r)) g) table.
End routes_heatmap.

(** The entries of [l] with count [c], in the order of [l]. *)
Definition with_count (c : Z) (l : list (str * Z)) : list (str * Z) :=
  filter (fun p => (snd p =? c)%Z) l.

(** [a] may stand before [b] in a list sorted by decreasing count. *)
Definition not_below (a b : str * Z) : Prop := (snd b <= snd a)%Z.

(* ===================================================================== *)
(** * Part II: properties                                                 *)
(* ===================================================================== *)

Unset Implicit Arguments.

(** ** Strings and dictionaries *)

Lemma str_eqb_eq (a b : str) : str_eqb a b = true <-> a = b.
Proof.
  revert b; induction a as [|x a IH]; intros [|y b]; simpl;
    try (split; (reflexivity || discriminate)).
  rewrite andb_true_iff, N.eqb_eq, IH.
  split; [intros [-> ->]; reflexivity | intros E; inversion E; auto].
Qed.

Lemma str_eqb_refl (a : str) : str_eqb a a = true.
Proof. now apply str_eqb_eq. Qed.

Lemma str_eqb_neq (a b : str) : str_eqb a b = false <-> a <> b.
Proof.
  rewrite <- str_eqb_eq. destruct (str_eqb a b); split; congruence.
Qed.

Lemma str_eqb_sym (a b : str) : str_eqb a b = str_eqb b a.
Proof.
  destruct (str_eqb b a) eqn:E.
  - apply str_eqb_eq in E. subst. apply str_eqb_refl.
  - apply str_eqb_neq. apply str_eqb_neq in E. congruence.
Qed.

Lemma list_mem_In (s : str) (l : list str) : list_mem s l = true <-> In s l.
Proof.
  unfold list_mem. rewrite existsb_exists. split.
  - intros (x & Hx & E). apply str_eqb_eq in E. now subst.
  - intros H. exists s. split; [assumption | apply str_eqb_refl].
Qed.

Lemma list_mem_not_In (s : str) (l : list str) :
  list_mem s l = false <-> ~ In s l.
Proof.
  rewrite <- list_mem_In. destruct (list_mem s l); split; congruence.
Qed.

Section DictFacts.
Variable V : Type.
Implicit Types (d : dict V) (k : str) (f g : str -> V).

Lemma keys_tabulate f ks : keys (tabulate f ks) = ks.
Proof.
  unfold keys, tabulate. rewrite map_map. simpl. apply map_id.
Qed.

Lemma dict_get_tabulate f ks k :
  dict_get (tabulate f ks) k = if list_mem k ks then Some (f k) else None.
Proof.
  induction ks as [|k0 ks IH]; simpl; [reflexivity|].
  destruct (str_eqb k k0) eqn:E; simpl.
  - apply str_eqb_eq in E. now subst.
  - exact IH.
Qed.

Lemma dict_mem_tabulate f ks k : dict_mem k (tabulate f ks) = list_mem k ks.
Proof.
  unfold dict_mem. rewrite dict_get_tabulate. now destruct (list_mem k ks).
Qed.

Lemma tabulate_ext f g ks :
  (forall k, In k ks -> f k = g k) -> tabulate f ks = tabulate g ks.
Proof.
  intros H. apply map_ext_in. intros k Hk. now rewrite H.
Qed.

(** Assigning to a key of a table without repeated keys changes that
    entry and nothing else, the order included. *)
Lemma dict_set_tabulate f ks k v :
  NoDup ks -> In k ks ->
  dict_set (tabulate f ks) k v
  = tabulate (fun k' => if str_eqb k' k then v else f k') ks.
Proof.
  induction ks as [|k0 ks IH]; intros ND Hin; [destruct Hin|].
  inversion ND as [|? ? Hnot ND']; subst. simpl.
  destruct (str_eqb k k0) eqn:E.
  - apply str_eqb_eq in E; subst k0. rewrite str_eqb_refl. f_equal.
    apply tabulate_ext. intros k' Hk'.
    destruct (str_eqb k' k) eqn:E'; [|reflexivity].
    apply str_eqb_eq in E'. now subst.
  - assert (E' : str_eqb k0 k = false).
    { apply str_eqb_neq. apply str_eqb_neq in E. congruence. }
    rewrite E'. f_equal. apply IH; [assumption|].
    destruct Hin as [->|]; [|assumption].
    now rewrite str_eqb_refl in E.
Qed.

Lemma dict_update_tabulate f ks k h :
  NoDup ks -> In k ks ->
  dict_update (tabulate f ks) k h
  = tabulate (fun k' => if str_eqb k' k then h (f k') else f k') ks.
Proof.
  intros ND Hin. unfold dict_update. rewrite dict_get_tabulate.
  apply list_mem_In in Hin as Hm. rewrite Hm.
  rewrite dict_set_tabulate by assumption.
  apply tabulate_ext. intros k' _.
  destruct (str_eqb k' k) eqn:E; [|reflexivity].
  apply str_eqb_eq in E. now subst.
Qed.

(** A comprehension over distinct keys is the table of its body. *)
Lemma dict_set_fresh d k v :
  ~ In k (keys d) -> dict_set d k v = d ++ [(k, v)].
Proof.
  induction d as [|[k0 v0] d IH]; simpl; intros Hn; [reflexivity|].
  destruct (str_eqb k k0) eqn:E.
  - apply str_eqb_eq in E. subst. tauto.
  - rewrite IH; tauto.
Qed.

Lemma dict_comprehension_tabulate f ks :
  NoDup ks -> dict_comprehension f ks = tabulate f ks.
Proof.
  unfold dict_comprehension.
  enough (G : forall pre, NoDup (pre ++ ks) ->
            fold_left (fun d k => dict_set d k (f k)) ks (tabulate f pre)
            = tabulate f (pre ++ ks)).
  { intros ND. apply (G []). exact ND. }
  induction ks as [|k ks IH]; intros pre ND; simpl.
  - now rewrite app_nil_r.
  - rewrite dict_set_fresh.
    + change (tabulate f pre ++ [(k, f k)]) with
        (tabulate f pre ++ tabulate f [k]).
      unfold tabulate at 1 2. rewrite <- map_app.
      change (map (fun k0 => (k0, f k0)) (pre ++ [k]))
        with (tabulate f (pre ++ [k])).
      rewrite IH; rewrite <- app_assoc; [reflexivity | exact ND].
    + rewrite keys_tabulate. apply NoDup_remove_2 in ND.
      intros Hin. apply ND. apply in_or_app. now left.
Qed.
End DictFacts.

Lemma sum_ints_shift (l : list Z) (a : Z) :
  fold_left Z.add l a = (a + sum_ints l)%Z.
Proof.
  unfold sum_ints. revert a.
  induction l as [|x l IH]; intros a; simpl; [lia|].
  rewrite (IH (a + x)%Z), (IH x). lia.
Qed.

Lemma sum_ints_cons (x : Z) (l : list Z) :
  sum_ints (x :: l) = (x + sum_ints l)%Z.
Proof. unfold sum_ints at 1. simpl. apply sum_ints_shift. Qed.

Lemma sum_ints_ones (A : Type) (l : list A) :
  sum_ints (map (fun _ => 1%Z) l) = len l.
Proof.
  unfold len. induction l as [|x l IH]; [reflexivity|].
  simpl map. rewrite sum_ints_cons, IH. simpl List.length. lia.
Qed.

Lemma len_app (A : Type) (l1 l2 : list A) :
  len (l1 ++ l2) = (len l1 + len l2)%Z.
Proof. unfold len. rewrite length_app. lia. Qed.

Lemma len_nonneg (A : Type) (l : list A) : (0 <= len l)%Z.
Proof. unfold len. lia. Qed.

Lemma nodupb_NoDup (l : list str) : nodupb l = true -> NoDup l.
Proof.
  induction l as [|x l IH]; simpl; intros H; constructor;
    apply andb_true_iff in H as [H1 H2].
  - apply list_mem_not_In. now apply negb_true_iff.
  - now apply IH.
Qed.

Lemma dict_get_In (V : Type) (d : dict V) (k : str) (v : V) :
  dict_get d k = Some v -> In (k, v) d.
Proof.
  induction d as [|[k0 v0] d IH]; simpl; [discriminate|].
  destruct (str_eqb k k0) eqn:E.
  - apply str_eqb_eq in E. intros [= ->]. subst. now left.
  - intros H. right. now apply IH.
Qed.

(** ** The taxonomy *)

Section Taxonomy.
Import heatmap heatmap_spec.

Lemma governorates_NoDup : NoDup TUNISIAN_GOVERNORATES.
Proof. apply nodupb_NoDup. vm_compute. reflexivity. Qed.

Lemma governorates_not_skipped (g : str) :
  In g TUNISIAN_GOVERNORATES -> skipped g = false.
Proof.
  intros H.
  assert (A : forallb (fun g => negb (skipped g)) TUNISIAN_GOVERNORATES
              = true) by (vm_compute; reflexivity).
  rewrite forallb_forall in A. apply A in H. now apply negb_true_iff.
Qed.

Lemma governorates_truthy (g : str) :
  In g TUNISIAN_GOVERNORATES -> truthy g = true.
Proof.
  intros H. apply governorates_not_skipped in H.
  unfold skipped in H. apply orb_false_iff in H as [H _].
  now apply negb_false_iff.
Qed.

(** Every entry of the table maps its key to itself. *)
Lemma table_entries_identity (k v : str) :
  In (k, v) CITY_TO_GOVERNORATE -> v = k.
Proof.
  intros H.
  assert (A : forallb (fun kv => str_eqb (snd kv) (fst kv))
                CITY_TO_GOVERNORATE = true) by (vm_compute; reflexivity).
  rewrite forallb_forall in A. apply A in H. now apply str_eqb_eq in H.
Qed.

(** Hence normalization changes no city at all. *)
Lemma normalize_id (city : str) : normalize city = city.
Proof.
  unfold normalize, dict_get_default.
  destruct (dict_get CITY_TO_GOVERNORATE city) as [v|] eqn:E;
    [|reflexivity].
  apply dict_get_In in E. now apply table_entries_identity.
Qed.

(** An event is counted for [g] exactly when its stripped city is the
    governorate name [g]. *)
Lemma bucket_of_char (e : event) :
  bucket_of e =
  if list_mem (strip (get_city e)) TUNISIAN_GOVERNORATES
  then Some (strip (get_city e)) else None.
Proof.
  unfold bucket_of. rewrite normalize_id.
  destruct (list_mem (strip (get_city e)) TUNISIAN_GOVERNORATES) eqn:M.
  - apply list_mem_In, governorates_not_skipped in M. now rewrite M.
  - now destruct (skipped _).
Qed.

Lemma bucket_of_In (e : event) (g : str) :
  bucket_of e = Some g -> In g TUNISIAN_GOVERNORATES.
Proof.
  rewrite bucket_of_char.
  destruct (list_mem _ _) eqn:M; [|discriminate].
  intros [= <-]. now apply list_mem_In.
Qed.

Lemma falls_in_unique (g g' : str) (e : event) :
  falls_in g e = true -> falls_in g' e = true -> g = g'.
Proof.
  unfold falls_in. destruct (bucket_of e) as [b|]; [|discriminate].
  rewrite !str_eqb_eq. congruence.
Qed.

Lemma matching_snoc (g : str) (l : list event) (e : event) :
  matching g (l ++ [e])
  = if falls_in g e then matching g l ++ [e] else matching g l.
Proof.
  unfold matching. rewrite filter_app. simpl.
  destruct (falls_in g e); [reflexivity | apply app_nil_r].
Qed.
End Taxonomy.

(** ** The aggregation loops in closed form *)

Section Loops.
Import heatmap heatmap_spec.

(** One iteration of the scoring loop on a table over the taxonomy. *)
Lemma scores_step_tabulate (f : str -> Z) (e : event) :
  scores_step (tabulate f TUNISIAN_GOVERNORATES) e
  = tabulate (fun g => if falls_in g e then (f g + 1)%Z else f g)
      TUNISIAN_GOVERNORATES.
Proof.
  unfold scores_step, falls_in, bucket_of. fold (normalize (strip (get_city e))).
  rewrite !dict_mem_tabulate.
  destruct (skipped _); [reflexivity|].
  set (c := strip (get_city e)).
  destruct (list_mem (normalize c) _) eqn:M1;
    [| destruct (list_mem c _) eqn:M2 ].
  - rewrite dict_update_tabulate;
      [| apply governorates_NoDup | now apply list_mem_In ].
    apply tabulate_ext. intros k _.
    now rewrite (str_eqb_sym k).
  - rewrite dict_update_tabulate;
      [| apply governorates_NoDup | now apply list_mem_In ].
    apply tabulate_ext. intros k _.
    now rewrite (str_eqb_sym k).
  - reflexivity.
Qed.
Lemma scores_loop (l pre : list event) :
  fold_left scores_step l
    (tabulate (fun g => len (matching g pre)) TUNISIAN_GOVERNORATES)
  = tabulate (fun g => len (matching g (pre ++ l))) TUNISIAN_GOVERNORATES.
Proof.
  revert pre. induction l as [|e l IH]; intros pre; cbn [fold_left].
  - now rewrite app_nil_r.
  - rewrite scores_step_tabulate.
    replace (pre ++ e :: l) with ((pre ++ [e]) ++ l)
      by (rewrite <- app_assoc; reflexivity).
    rewrite <- IH. f_equal. apply tabulate_ext. intros g _.
    rewrite matching_snoc. destruct (falls_in g e); [|reflexivity].
    rewrite len_app. reflexivity.
Qed.

(** [calculate_governorate_scores] binds every governorate, in taxonomy
    order, to the number of events that fall in it. *)
Lemma calculate_governorate_scores_closed (events : list event) :
  calculate_governorate_scores events
  = tabulate (fun g => len (matching g events)) TUNISIAN_GOVERNORATES.
Proof.
  unfold calculate_governorate_scores.
  rewrite dict_comprehension_tabulate by apply governorates_NoDup.
  apply (scores_loop events []).
Qed.

Lemma firstn_snoc (A : Type) (n : nat) (m : list A) (e : A) :
  firstn n (m ++ [e])
  = if (len (firstn n m) <? Z.of_nat n)%Z then firstn n m ++ [e]
    else firstn n m.
Proof.
  unfold len. rewrite firstn_app, length_firstn.
  destruct (Z.ltb_spec (Z.of_nat (Nat.min n (List.length m))) (Z.of_nat n))
    as [Hlt|Hge].
  - assert (Hm : (List.length m < n)%nat) by lia.
    rewrite firstn_all2 by lia.
    destruct (n - List.length m)%nat eqn:D; [lia|]. simpl. now rewrite firstn_nil.
  - replace (n - List.length m)%nat with 0%nat by lia.
    apply app_nil_r.
Qed.

Lemma bucket_add_after (g : str) (pre : list event) (e : event) :
  falls_in g e = true ->
  bucket_add e (bucket_after g pre) = bucket_after g (pre ++ [e]).
Proof.
  intros F. unfold bucket_add, bucket_after. cbn [score color events_count events].
  rewrite matching_snoc, F, len_app.
  change (len [e]) with 1%Z.
  rewrite (firstn_snoc _ 5 (matching g pre) e).
  change (Z.of_nat 5) with 5%Z.
  destruct (len (firstn 5 (matching g pre)) <? 5)%Z; reflexivity.
Qed.

(** One iteration of the heat-map loop on a table over the taxonomy. *)
Lemma heatmap_step_tabulate (f : str -> bucket) (e : event) :
  heatmap_step (tabulate f TUNISIAN_GOVERNORATES) e
  = tabulate (fun g => if falls_in g e then bucket_add e (f g) else f g)
      TUNISIAN_GOVERNORATES.
Proof.
  unfold heatmap_step, falls_in, bucket_of.
  fold (normalize (strip (get_city e))).
  rewrite !dict_mem_tabulate.
  destruct (skipped _); [reflexivity|].
  set (c := strip (get_city e)).
  destruct (list_mem (normalize c) _) eqn:M1;
    [| destruct (list_mem c _) eqn:M2 ].
  - apply list_mem_In in M1.
    rewrite (governorates_truthy _ M1).
    rewrite dict_update_tabulate by (apply governorates_NoDup || assumption).
    apply tabulate_ext. intros k _. now rewrite (str_eqb_sym k).
  - apply list_mem_In in M2.
    rewrite (governorates_truthy _ M2).
    rewrite dict_update_tabulate by (apply governorates_NoDup || assumption).
    apply tabulate_ext. intros k _. now rewrite (str_eqb_sym k).
  - reflexivity.
Qed.

Lemma heatmap_loop (l pre : list event) :
  fold_left heatmap_step l
    (tabulate (fun g => bucket_after g pre) TUNISIAN_GOVERNORATES)
  = tabulate (fun g => bucket_after g (pre ++ l)) TUNISIAN_GOVERNORATES.
Proof.
  revert pre. induction l as [|e l IH]; intros pre; cbn [fold_left].
  - now rewrite app_nil_r.
  - rewrite heatmap_step_tabulate.
    replace (pre ++ e :: l) with ((pre ++ [e]) ++ l)
      by (rewrite <- app_assoc; reflexivity).
    rewrite <- IH. f_equal. apply tabulate_ext. intros g _.
    destruct (falls_in g e) eqn:F.
    + now apply bucket_add_after.
    + unfold bucket_after. now rewrite matching_snoc, F.
Qed.

(** [get_heatmap_data] binds every governorate, in taxonomy order, to
    the bucket of the events that fall in it. *)
Lemma get_heatmap_data_closed (events : list event) :
  get_heatmap_data events
  = tabulate (fun g => bucket_after g events) TUNISIAN_GOVERNORATES.
Proof.
  unfold get_heatmap_data.
  rewrite dict_comprehension_tabulate by apply governorates_NoDup.
  apply (heatmap_loop events []).
Qed.
End Loops.

(** ** Colour bands *)

Section Colours.
Import heatmap.

Lemma colours_distinct :
  BLUE <> YELLOW /\ BLUE <> ORANGE /\ BLUE <> RED /\
  YELLOW <> ORANGE /\ YELLOW <> RED /\ ORANGE <> RED.
Proof. repeat split; intros H; vm_compute in H; discriminate H. Qed.

(** C6. On every non-negative score, [get_color_for_score] returns blue
    ['#3388FF'] exactly at 0, yellow ['#FFD700'] exactly on 1..3, orange
    ['#FF8800'] exactly on 4..6 and red ['#FF0000'] exactly from 7 on:
    the four bands cover the non-negative integers and do not overlap.
    The function is a total function of its argument alone. *)
Theorem get_color_for_score_bands (s : Z) :
  (0 <= s)%Z ->
  (get_color_for_score s = u "#3388FF" <-> s = 0%Z) /\
  (get_color_for_score s = u "#FFD700" <-> (1 <= s <= 3)%Z) /\
  (get_color_for_score s = u "#FF8800" <-> (4 <= s <= 6)%Z) /\
  (get_color_for_score s = u "#FF0000" <-> (7 <= s)%Z).
Proof.
  intros Hs.
  destruct colours_distinct as (BY & BO & BR & YO & YR & OR).
  fold BLUE YELLOW ORANGE RED. unfold get_color_for_score.
  destruct (Z.eqb_spec s 0) as [->|Hn0]; simpl.
  { repeat split; intros; try lia; try reflexivity; congruence. }
  destruct (Z.leb_spec 1 s), (Z.leb_spec s 3); simpl; try lia.
  { repeat split; intros; try lia; try reflexivity; congruence. }
  destruct (Z.leb_spec 4 s), (Z.leb_spec s 6); simpl; try lia;
    repeat split; intros; try lia; try reflexivity; congruence.
Qed.

Lemma get_color_for_score_bands_witness :
  (0 <= 5)%Z /\
  (get_color_for_score 5 = u "#3388FF" <-> 5%Z = 0%Z) /\
  (get_color_for_score 5 = u "#FFD700" <-> (1 <= 5 <= 3)%Z) /\
  (get_color_for_score 5 = u "#FF8800" <-> (4 <= 5 <= 6)%Z) /\
  (get_color_for_score 5 = u "#FF0000" <-> (7 <= 5)%Z).
Proof.
  split; [lia | apply (get_color_for_score_bands 5); lia].
Defined.
End Colours.

(** ** Sums over the taxonomy *)

Section Sums.
Import heatmap heatmap_spec.

Lemma values_tabulate (V : Type) (f : str -> V) (ks : list str) :
  values (tabulate f ks) = map f ks.
Proof. unfold values, tabulate. now rewrite map_map. Qed.

Lemma sum_ints_map_add (f h : str -> Z) (ks : list str) :
  sum_ints (map (fun g => f g + h g)%Z ks)
  = (sum_ints (map f ks) + sum_ints (map h ks))%Z.
Proof.
  induction ks as [|k ks IH]; [reflexivity|].
  cbn [map]. rewrite !sum_ints_cons, IH. lia.
Qed.

Lemma sum_ints_map_zero (ks : list str) :
  sum_ints (map (fun _ => 0%Z) ks) = 0%Z.
Proof.
  induction ks as [|k ks IH]; [reflexivity|].
  cbn [map]. now rewrite sum_ints_cons, IH.
Qed.

(** Exactly one governorate receives a resolving event. *)
Lemma sum_indicator (g0 : str) (ks : list str) :
  NoDup ks ->
  sum_ints (map (fun g => if str_eqb g0 g then 1 else 0)%Z ks)
  = if list_mem g0 ks then 1%Z else 0%Z.
Proof.
  induction 1 as [|k ks Hk ND IH]; [reflexivity|].
  cbn [map]. rewrite sum_ints_cons, IH.
  unfold list_mem. cbn [existsb]. fold (list_mem g0 ks).
  destruct (str_eqb g0 k) eqn:E; simpl; [|reflexivity].
  apply str_eqb_eq in E. subst k.
  apply list_mem_not_In in Hk. now rewrite Hk.
Qed.

Lemma sum_falls_in (e : event) :
  sum_ints (map (fun g => if falls_in g e then 1 else 0)%Z
              TUNISIAN_GOVERNORATES)
  = if resolves e then 1%Z else 0%Z.
Proof.
  unfold falls_in, resolves.
  destruct (bucket_of e) as [g0|] eqn:B.
  - rewrite sum_indicator by apply governorates_NoDup.
    apply bucket_of_In, list_mem_In in B. now rewrite B.
  - apply sum_ints_map_zero.
Qed.

Lemma sum_matching (l : list event) :
  sum_ints (map (fun g => len (matching g l)) TUNISIAN_GOVERNORATES)
  = len (filter resolves l).
Proof.
  induction l as [|e l IH].
  - apply sum_ints_map_zero.
  - rewrite (map_ext _
      (fun g => (if falls_in g e then 1 else 0) + len (matching g l))%Z).
    + rewrite sum_ints_map_add, sum_falls_in, IH. cbn [filter].
      destruct (resolves e); [|reflexivity].
      unfold len. cbn [List.length]. lia.
    + intros g. unfold matching. cbn [filter].
      destruct (falls_in g e); [|reflexivity].
      unfold len. cbn [List.length]. lia.
Qed.

Lemma resolves_char (e : event) :
  resolves e = list_mem (strip (get_city e)) TUNISIAN_GOVERNORATES.
Proof.
  unfold resolves. rewrite bucket_of_char. now destruct (list_mem _ _).
Qed.

Lemma unresolved_falls_nowhere (e : event) (g : str) :
  resolves e = false -> falls_in g e = false.
Proof.
  unfold resolves, falls_in. now destruct (bucket_of e).
Qed.

Lemma sentinel_unresolved (e : event) :
  In (strip (get_city e)) [[]; u "Unknown"; u "Error"; u "Pending"] ->
  resolves e = false.
Proof.
  intros H. rewrite resolves_char. apply list_mem_not_In.
  intros G. apply governorates_not_skipped in G.
  unfold skipped in G. apply orb_false_iff in G as [G1 G2].
  destruct H as [H|H].
  - rewrite <- H in G1. discriminate G1.
  - apply list_mem_not_In in G2. apply G2. exact H.
Qed.

Lemma matching_drop (g : str) (l1 l2 : list event) (e : event) :
  resolves e = false -> matching g (l1 ++ e :: l2) = matching g (l1 ++ l2).
Proof.
  intros R. unfold matching. rewrite !filter_app. cbn [filter].
  now rewrite (unresolved_falls_nowhere e g R).
Qed.
End Sums.

(** ** The aggregator *)

Section Aggregator.
Import heatmap heatmap_spec.

(** C4. Whatever the events, the keys of the mapping returned by
    [calculate_governorate_scores] and of the one returned by
    [get_heatmap_data] are the 24 governorates of the taxonomy, each
    once and in taxonomy order: an unrecognized city adds no key and no
    taxonomy key is missing. *)
Theorem heatmap_keys_are_taxonomy (events : list event) :
  keys (calculate_governorate_scores events) = TUNISIAN_GOVERNORATES /\
  keys (get_heatmap_data events) = TUNISIAN_GOVERNORATES /\
  List.length TUNISIAN_GOVERNORATES = 24%nat /\
  NoDup TUNISIAN_GOVERNORATES.
Proof.
  rewrite calculate_governorate_scores_closed, get_heatmap_data_closed.
  rewrite !keys_tabulate.
  repeat split; try reflexivity. apply governorates_NoDup.
Qed.

Lemma scores_drop (e : event) (l1 l2 : list event) :
  resolves e = false ->
  calculate_governorate_scores (l1 ++ e :: l2)
  = calculate_governorate_scores (l1 ++ l2).
Proof.
  intros R. rewrite !calculate_governorate_scores_closed.
  apply tabulate_ext. intros g _. now rewrite (matching_drop g l1 l2 e R).
Qed.

(** C1. The values of [calculate_governorate_scores events] add up to
    the number of events that resolve to a governorate bucket.  An event
    resolves exactly when its stripped city is one of the 24 governorate
    names; an event whose city is absent, empty, ['Unknown'], ['Error']
    or ['Pending'], or matches nothing in the taxonomy, does not resolve,
    and removing an event that does not resolve changes no score. *)
Theorem scores_sum_counts_resolved :
  (forall events,
      sum_ints (values (calculate_governorate_scores events))
      = len (filter resolves events)) /\
  (forall e,
      resolves e = true <-> In (strip (get_city e)) TUNISIAN_GOVERNORATES) /\
  (forall e,
      In (strip (get_city e)) [[]; u "Unknown"; u "Error"; u "Pending"] ->
      resolves e = false) /\
  (forall e l1 l2,
      resolves e = false ->
      calculate_governorate_scores (l1 ++ e :: l2)
      = calculate_governorate_scores (l1 ++ l2)).
Proof.
  split; [|split; [|split]].
  - intros events.
    rewrite calculate_governorate_scores_closed, values_tabulate.
    apply sum_matching.
  - intros e. rewrite resolves_char. apply list_mem_In.
  - apply sentinel_unresolved.
  - apply scores_drop.
Qed.


Lemma scores_sum_counts_resolved_witness :
  let a := Event [] [] [] [] [] (Some (u "Tunis")) [] in
  let e := Event [] [] [] [] [] (Some (u "Error")) [] in
  resolves e = false /\
  calculate_governorate_scores ([a] ++ e :: [a])
  = calculate_governorate_scores ([a] ++ [a]).
Proof.
  intros a e.
  assert (R : resolves e = false) by (vm_compute; reflexivity).
  split; [exact R|].
  apply (proj2 (proj2 (proj2 scores_sum_counts_resolved)) e [a] [a] R).
Defined.

(** The score of a governorate is the number of events that fall in it. *)
Lemma score_of_governorate (evs : list event) (g : str) :
  dict_get_default (calculate_governorate_scores evs) g 0%Z
  = if list_mem g TUNISIAN_GOVERNORATES then len (matching g evs) else 0%Z.
Proof.
  unfold dict_get_default.
  rewrite calculate_governorate_scores_closed, dict_get_tabulate.
  now destruct (list_mem g TUNISIAN_GOVERNORATES).
Qed.

Lemma filter_tabulate (V : Type) (f : str -> V) (p : V -> bool)
      (ks : list str) :
  filter (fun kv => p (snd kv)) (tabulate f ks)
  = tabulate f (filter (fun k => p (f k)) ks).
Proof.
  induction ks as [|k ks IH]; [reflexivity|].
  cbn [tabulate map filter snd]. fold (tabulate f ks). rewrite IH.
  now destruct (p (f k)).
Qed.

Lemma filter_map_comm (A B : Type) (f : A -> B) (p : B -> bool)
      (l : list A) :
  filter p (map f l) = map f (filter (fun x => p (f x)) l).
Proof.
  induction l as [|x l IH]; [reflexivity|].
  cbn [map filter]. rewrite IH. now destruct (p (f x)).
Qed.

(** C7. [get_heatmap_summary events] reports: [total_events], the sum of
    the scores of [calculate_governorate_scores events];
    [active_governorates], the number of governorates whose score is not
    zero; [total_governorates], 24 whatever the input; and
    [governorates_with_events], the governorates whose score is not zero,
    in taxonomy order. *)
Theorem heatmap_summary_fields (evs : list event) :
  let scores := calculate_governorate_scores evs in
  let s := get_heatmap_summary evs in
  total_events s = sum_ints (values scores) /\
  active_governorates s
  = len (filter (nonzero_score scores) TUNISIAN_GOVERNORATES) /\
  total_governorates s = 24%Z /\
  governorates_with_events s
  = filter (nonzero_score scores) TUNISIAN_GOVERNORATES.
Proof.
  intros scores s.
  assert (E : forall g, In g TUNISIAN_GOVERNORATES ->
              (len (matching g evs) >? 0)%Z = nonzero_score scores g).
  { intros g Hg. unfold nonzero_score, scores.
    rewrite score_of_governorate.
    apply list_mem_In in Hg. rewrite Hg.
    pose proof (len_nonneg _ (matching g evs)).
    destruct (Z.eqb_spec (len (matching g evs)) 0) as [->|]; simpl;
      [reflexivity|]. apply Z.gtb_lt. lia. }
  split; [reflexivity|]. split; [|split; [reflexivity|]].
  - unfold s, get_heatmap_summary. cbn [active_governorates].
    rewrite sum_ints_ones. fold scores. unfold scores at 1.
    rewrite calculate_governorate_scores_closed, values_tabulate.
    rewrite filter_map_comm. unfold len. rewrite length_map.
    do 2 f_equal. apply (filter_ext_in _ _ _ E).
  - unfold s, get_heatmap_summary. cbn [governorates_with_events].
    fold scores. unfold scores at 1.
    rewrite calculate_governorate_scores_closed.
    rewrite (filter_tabulate _ _ (fun v => (v >? 0)%Z)).
    fold (keys (tabulate (fun g => len (matching g evs))
           (filter (fun k => (len (matching k evs) >? 0)%Z)
              TUNISIAN_GOVERNORATES))).
    rewrite keys_tabulate. apply (filter_ext_in _ _ _ E).
Qed.
(** The worked example of the specification: Monastir, Unknown, Sfax,
    Sfax, Mahdia. *)
Example five_events :
  let ev c := Event [] [] [] [] [] (Some (u c)) [] in
  let evs := [ev "Monastir"; ev "Unknown"; ev "Sfax"; ev "Sfax";
              ev "Mahdia"]%string in
  let scores := calculate_governorate_scores evs in
  filter (fun gs => negb (snd gs =? 0)%Z) scores
  = [(u "Mahdia", 1%Z); (u "Monastir", 1%Z); (u "Sfax", 2%Z)] /\
  option_map color (dict_get (get_heatmap_data evs) (u "Sfax"))
  = Some (u "#FFD700") /\
  total_events (get_heatmap_summary evs) = 4%Z /\
  active_governorates (get_heatmap_summary evs) = 3%Z.
Proof. repeat split; vm_compute; reflexivity. Qed.
End Aggregator.

(** ** The normalization table and the fallback branch *)

Section Normalization.
Import heatmap heatmap_spec.

Lemma table_keys_NoDup : NoDup (keys CITY_TO_GOVERNORATE).
Proof. apply nodupb_NoDup. vm_compute. reflexivity. Qed.

Lemma table_keys_governorates (k : str) :
  In k (keys CITY_TO_GOVERNORATE) <-> In k TUNISIAN_GOVERNORATES.
Proof.
  assert (A : forallb (fun k => list_mem k TUNISIAN_GOVERNORATES)
                (keys CITY_TO_GOVERNORATE) = true)
    by (vm_compute; reflexivity).
  assert (B : forallb (fun k => list_mem k (keys CITY_TO_GOVERNORATE))
                TUNISIAN_GOVERNORATES = true)
    by (vm_compute; reflexivity).
  rewrite forallb_forall in A, B.
  split; intros H; apply list_mem_In; auto.
Qed.

Lemma simplified_step_tabulate (f : str -> Z) (e : event) :
  simplified_step (tabulate f TUNISIAN_GOVERNORATES) e
  = scores_step (tabulate f TUNISIAN_GOVERNORATES) e.
Proof.
  unfold simplified_step, scores_step.
  destruct (skipped _); [reflexivity|].
  fold (normalize (strip (get_city e))). rewrite normalize_id.
  now destruct (dict_mem _ _).
Qed.

Lemma simplified_loop (l : list event) (f : str -> Z) :
  fold_left simplified_step l (tabulate f TUNISIAN_GOVERNORATES)
  = fold_left scores_step l (tabulate f TUNISIAN_GOVERNORATES).
Proof.
  revert f. induction l as [|e l IH]; intros f; cbn [fold_left].
  - reflexivity.
  - rewrite simplified_step_tabulate, scores_step_tabulate. apply IH.
Qed.

(** C10. The keys of [CITY_TO_GOVERNORATE] are the 24 governorate names
    (each once, in another order) and every key maps to itself.  Hence
    [calculate_governorate_scores] equals the function that only tests
    [CITY_TO_GOVERNORATE.get(city, city)] against the buckets, and in
    every state the loop reaches, for every event, the condition of the
    fallback branch (normalized city not a bucket, raw city a bucket)
    is false. *)
Theorem normalization_is_identity_on_governorates :
  Permutation (keys CITY_TO_GOVERNORATE) TUNISIAN_GOVERNORATES /\
  Forall (fun kv => snd kv = fst kv) CITY_TO_GOVERNORATE /\
  (forall events,
      calculate_governorate_scores events
      = simplified_governorate_scores events) /\
  (forall pre e,
      let scores :=
        fold_left scores_step pre
          (dict_comprehension (fun _ => 0%Z) TUNISIAN_GOVERNORATES) in
      let city := strip (get_city e) in
      let governorate := dict_get_default CITY_TO_GOVERNORATE city city in
      negb (skipped city) && negb (dict_mem governorate scores)
        && dict_mem city scores = false).
Proof.
  split; [|split; [|split]].
  - apply NoDup_Permutation.
    + apply table_keys_NoDup.
    + apply governorates_NoDup.
    + apply table_keys_governorates.
  - apply Forall_forall. intros [k v] H. simpl.
    now apply table_entries_identity.
  - intros events.
    unfold calculate_governorate_scores, simplified_governorate_scores.
    rewrite dict_comprehension_tabulate by apply governorates_NoDup.
    symmetry. apply simplified_loop.
  - intros pre e scores city governorate.
    unfold governorate. fold (normalize city). rewrite normalize_id.
    destruct (dict_mem city scores); destruct (skipped city); reflexivity.
Qed.
End Normalization.

(** ** The city resolver *)

Section ResolverFacts.
Import heatmap scraper scraper_spec.
Local Open Scope string_scope.

Lemma alias_cities_not_error (key city : str) :
  In (key, city) CITY_ALIASES -> city <> u "Error".
Proof.
  intros H.
  assert (A : forallb (fun kc => negb (str_eqb (snd kc) (u "Error")))
                CITY_ALIASES = true) by (vm_compute; reflexivity).
  rewrite forallb_forall in A. apply A in H.
  apply negb_true_iff, str_eqb_neq in H. exact H.
Qed.

(** A title in which some alias is found passes tier 1. *)
Lemma title_tier_found {U : Unicode} (title key city : str) :
  truthy title = true ->
  In (key, city) CITY_ALIASES ->
  search_word key (lower title) = true ->
  exists key' city',
    find (fun kc => search_word (fst kc) (lower title)) CITY_ALIASES
    = Some (key', city') /\
    title_tier (Some title) = Some city'.
Proof.
  intros T Hin S. unfold title_tier. rewrite T.
  destruct (find _ CITY_ALIASES) as [[k c]|] eqn:F.
  - exists k, c. split; reflexivity.
  - exfalso. apply (find_none _ _ F) in Hin. simpl in Hin. congruence.
Qed.

(** Once past the navigation, a hit of tier 1 is the answer. *)
Lemma extract_city_title {U : Unicode} (page : Page)
      (event_url : str) (event_name : option str) (c : str) :
  goto page event_url = Ok tt ->
  title_tier event_name = Some c ->
  extract_city_from_event_page page event_url event_name = c.
Proof.
  intros G T. unfold extract_city_from_event_page, extract_city_body.
  rewrite G. simpl. now rewrite T.
Qed.

(** C2, as the code has it.  The resolver navigates to the event page
    first.  When the navigation succeeds and the title contains a key of
    [CITY_ALIASES] as a whole word, the answer is the city of the first
    key of the table found in the title, whatever the page shows in its
    address blocks, and it is not ['Error'].  When the navigation raises,
    the answer is ['Error'] whatever the title. *)
Theorem title_tier_after_navigation {U : Unicode} :
  (forall (page : Page) (event_url title key city : str),
      goto page event_url = Ok tt ->
      truthy title = true ->
      In (key, city) CITY_ALIASES ->
      search_word key (lower title) = true ->
      exists key' city',
        find (fun kc => search_word (fst kc) (lower title)) CITY_ALIASES
        = Some (key', city') /\
        In (key', city') CITY_ALIASES /\
        search_word key' (lower title) = true /\
        extract_city_from_event_page page event_url (Some title) = city' /\
        city' <> u "Error" /\
        forall page' : Page,
          goto page' event_url = Ok tt ->
          extract_city_from_event_page page' event_url (Some title)
          = city') /\
  (forall (page : Page) (event_url : str) (event_name : option str),
      goto page event_url = Raise ->
      extract_city_from_event_page page event_url event_name = u "Error").
Proof.
  split.
  - intros page event_url title key city G T Hin S.
    destruct (title_tier_found title key city T Hin S)
      as (k & c & F & TT).
    exists k, c.
    pose proof (find_some _ _ F) as [Hk Sk]. simpl in Sk.
    repeat split; try assumption.
    + now apply extract_city_title.
    + now apply (alias_cities_not_error k).
    + intros page' G'. now apply extract_city_title.
  - intros page event_url event_name G.
    unfold extract_city_from_event_page, extract_city_body.
    now rewrite G.
Qed.

Lemma title_tier_after_navigation_witness :
  let title := u "Soirée à Monastir" in
  let event_url := u "https://teskerti.tn/event/1" in
  goto sfax_page event_url = Ok tt /\
  truthy title = true /\
  In (u "monastir", u "Monastir") CITY_ALIASES /\
  @search_word latin1 (u "monastir") (@lower latin1 title) = true /\
  exists key' city',
    find (fun kc => @search_word latin1 (fst kc) (@lower latin1 title))
      CITY_ALIASES = Some (key', city') /\
    In (key', city') CITY_ALIASES /\
    @search_word latin1 key' (@lower latin1 title) = true /\
    @extract_city_from_event_page latin1 sfax_page event_url (Some title)
    = city' /\
    city' <> u "Error" /\
    forall page' : Page,
      goto page' event_url = Ok tt ->
      @extract_city_from_event_page latin1 page' event_url (Some title)
      = city'.
Proof.
  intros title event_url.
  assert (G : goto sfax_page event_url = Ok tt) by reflexivity.
  assert (T : truthy title = true) by reflexivity.
  assert (I : In (u "monastir", u "Monastir") CITY_ALIASES)
    by (left; reflexivity).
  assert (S : @search_word latin1 (u "monastir") (@lower latin1 title)
              = true) by (vm_compute; reflexivity).
  split; [exact G|]. split; [exact T|]. split; [exact I|].
  split; [exact S|].
  exact (proj1 (@title_tier_after_navigation latin1)
           sfax_page event_url title _ _ G T I S).
Defined.

(** On that page the title wins over the address block naming Sfax. *)
Example monastir_title_beats_sfax_address :
  @extract_city_from_event_page latin1 sfax_page
    (u "https://teskerti.tn/event/1") (Some (u "Soirée à Monastir"))
  = u "Monastir" /\
  @extract_city_from_event_page latin1 sfax_page
    (u "https://teskerti.tn/event/1") (Some (u "Soirée"))
  = u "Sfax".
Proof. split; vm_compute; reflexivity. Qed.

(** The claim C2 as worded fails: a title naming Monastir as a whole word
    does not save an event whose page cannot be reached; the resolver
    answers ['Error'], not ['Monastir']. *)
Lemma title_match_yields_error_when_unreachable :
  let title := u "Soirée à Monastir" in
  let event_url := u "https://teskerti.tn/event/1" in
  truthy title = true /\
  In (u "monastir", u "Monastir") CITY_ALIASES /\
  @search_word latin1 (u "monastir") (@lower latin1 title) = true /\
  @extract_city_from_event_page latin1 unreachable_page event_url
    (Some title) = u "Error" /\
  @extract_city_from_event_page latin1 unreachable_page event_url
    (Some title) <> u "Monastir".
Proof.
  repeat split; try (vm_compute; reflexivity).
  - left. reflexivity.
  - vm_compute. discriminate.
Qed.
End ResolverFacts.

(** ** The orchestrator loop *)

Section OrchestratorFacts.
Import heatmap heatmap_spec scraper scraper_spec.
Local Open Scope string_scope.

Lemma error_city_unresolved (e : event) :
  city e = Some (u "Error") -> resolves e = false.
Proof.
  intros C. apply sentinel_unresolved.
  unfold get_city. rewrite C. right; right; left. reflexivity.
Qed.

Lemma heatmap_data_drop (e : event) (l1 l2 : list event) :
  resolves e = false ->
  get_heatmap_data (l1 ++ e :: l2) = get_heatmap_data (l1 ++ l2).
Proof.
  intros R. rewrite !get_heatmap_data_closed.
  apply tabulate_ext. intros g _. unfold bucket_after.
  now rewrite (matching_drop g l1 l2 e R).
Qed.
Lemma coerced_city_cases (r : str) :
  let c := if str_eqb r (u "Unknown") then u "Tunis" else r in
  (r = u "Unknown" -> c = u "Tunis") /\ (r <> u "Unknown" -> c = r).
Proof.
  simpl. destruct (str_eqb r (u "Unknown")) eqn:E.
  - apply str_eqb_eq in E. split; intros; congruence.
  - apply str_eqb_neq in E. split; intros; congruence.
Qed.

Lemma resolve_event_resolved {U : Unicode} (page : Page) (e : event) :
  resolved_from page e (resolve_event page e).
Proof.
  unfold resolved_from, resolve_event.
  cbn [name place date price url scraped_at city].
  repeat (split; [reflexivity|]).
  destruct (coerced_city_cases
              (extract_city_from_event_page page (url e) (Some (name e))))
    as [A B].
  cbv zeta in A, B. cbv zeta.
  split; [|split].
  - intros E. now rewrite (A E).
  - intros E. rewrite B; [now rewrite E|].
    rewrite E. intros X. vm_compute in X. discriminate X.
  - intros E. now rewrite (B E).
Qed.

Lemma Forall2_map_self (A B : Type) (R : A -> B -> Prop) (f : A -> B)
      (l : list A) :
  (forall x, R x (f x)) -> Forall2 R l (map f l).
Proof.
  intros H. induction l as [|x l IH]; simpl; constructor; auto.
Qed.

(** C8. The orchestrator returns the events of the crawl, every one of
    them, one for one and in order, each with its other fields untouched
    and its city set from the resolver's answer for it: ['Tunis'] when the
    answer is ['Unknown'], the answer itself otherwise, ['Error'] in
    particular staying ['Error'].  An event whose city is ['Error'] is
    skipped by the aggregation functions: dropping it changes neither the
    scores, the heat-map data nor the summary. *)
Theorem unknown_becomes_tunis_error_stays {U : Unicode} :
  (forall (page : Page) (cs : list container),
      Forall2
        (fun e e' =>
           name e' = name e /\ place e' = place e /\ date e' = date e /\
           price e' = price e /\ url e' = url e /\
           scraped_at e' = scraped_at e /\
           let answer :=
             extract_city_from_event_page page (url e) (Some (name e)) in
           (answer = u "Unknown" -> city e' = Some (u "Tunis")) /\
           (answer = u "Error" -> city e' = Some (u "Error")) /\
           (answer <> u "Unknown" -> city e' = Some answer))
        (crawl cs) (scrape_events page cs) /\
      List.length (scrape_events page cs) = List.length (crawl cs)) /\
  (forall (e : event) (l1 l2 : list event),
      city e = Some (u "Error") ->
      calculate_governorate_scores (l1 ++ e :: l2)
      = calculate_governorate_scores (l1 ++ l2) /\
      get_heatmap_data (l1 ++ e :: l2) = get_heatmap_data (l1 ++ l2) /\
      get_heatmap_summary (l1 ++ e :: l2)
      = get_heatmap_summary (l1 ++ l2)).
Proof.
  split.
  - intros page cs. split.
    + unfold scrape_events. apply Forall2_map_self.
      intros e. apply (resolve_event_resolved page e).
    + unfold scrape_events. apply length_map.
  - intros e l1 l2 C. apply error_city_unresolved in C.
    split; [|split].
    + now apply scores_drop.
    + now apply heatmap_data_drop.
    + unfold get_heatmap_summary. now rewrite (scores_drop e l1 l2 C).
Qed.

(** One item whose page cannot be reached: the orchestrator returns its
    event, with the city ['Error'], and the aggregation skips it. *)
Lemma unknown_becomes_tunis_error_stays_witness :
  let c := {| link := Some (Some (u "/event/9"));
              title_strong := Some (u "Gala"); title_h3 := None;
              short_info := None; rating_small := None;
              short_info_price := None; clock := u "2024-01-01T00:00:00" |}
  in
  let a := Event [] [] [] [] [] (Some (u "Tunis")) [] in
  let returned := @scrape_events latin1 unreachable_page [c] in
  let e := hd a returned in
  Forall2 (@resolved_from latin1 unreachable_page) (crawl [c]) returned /\
  List.length returned = 1%nat /\
  @extract_city_from_event_page latin1 unreachable_page
    (url (hd a (crawl [c]))) (Some (name (hd a (crawl [c])))) = u "Error" /\
  city e = Some (u "Error") /\
  (calculate_governorate_scores ([a] ++ e :: [a])
   = calculate_governorate_scores ([a] ++ [a]) /\
   get_heatmap_data ([a] ++ e :: [a]) = get_heatmap_data ([a] ++ [a]) /\
   get_heatmap_summary ([a] ++ e :: [a])
   = get_heatmap_summary ([a] ++ [a])).
Proof.
  intros c a returned e.
  pose proof (proj1 (@unknown_becomes_tunis_error_stays latin1)
                unreachable_page [c]) as [F L].
  assert (C : city e = Some (u "Error")) by (vm_compute; reflexivity).
  split; [exact F|].
  split; [unfold returned; rewrite L; vm_compute; reflexivity|].
  split; [vm_compute; reflexivity|].
  split; [exact C|].
  exact (proj2 (@unknown_becomes_tunis_error_stays latin1) e [a] [a] C).
Defined.

(** The two outcomes at work: a page with nothing to match gives
    ['Unknown'], stored as ['Tunis']; a page that cannot be reached gives
    ['Error'], stored as it is. *)
Example orchestrator_on_two_pages :
  let c := {| link := Some (Some (u "/event/9"));
              title_strong := Some (u "Gala"); title_h3 := None;
              short_info := None; rating_small := None;
              short_info_price := None; clock := u "2024-01-01T00:00:00" |}
  in
  map city (@scrape_events latin1 empty_page [c]) = [Some (u "Tunis")] /\
  map city (@scrape_events latin1 unreachable_page [c])
  = [Some (u "Error")].
Proof. split; vm_compute; reflexivity. Qed.
End OrchestratorFacts.

(** ** The listing crawler: one event per URL *)

Section CrawlerFacts.
Import heatmap scraper scraper_spec.
Local Open Scope string_scope.
Local Open Scope list_scope.

Lemma crawl_step_item (evs : list event) (seen : list str) (c : container) :
  crawl_step (evs, seen) c
  = match item_url c with
    | Some h =>
        if list_mem h seen then (evs, seen)
        else (evs ++ [make_event h c], h :: seen)
    | None => (evs, seen)
    end.
Proof.
  unfold crawl_step, item_url.
  destruct (link c) as [[href|]|]; try reflexivity.
  now destruct (truthy href).
Qed.

Lemma crawl_loop (cs : list container) (evs : list event)
      (seen : list str) :
  fst (fold_left crawl_step cs (evs, seen))
  = evs ++ map recorded (first_occurrences seen cs).
Proof.
  revert evs seen. induction cs as [|c cs IH]; intros evs seen.
  - simpl. now rewrite app_nil_r.
  - cbn [fold_left first_occurrences]. rewrite crawl_step_item.
    destruct (item_url c) as [h|]; [|apply IH].
    destruct (list_mem h seen); [apply IH|].
    rewrite IH, <- app_assoc. reflexivity.
Qed.

Lemma first_occurrences_fresh (cs : list container) (seen : list str)
      (h : str) :
  In h (map fst (first_occurrences seen cs)) -> ~ In h seen.
Proof.
  revert seen. induction cs as [|c cs IH]; intros seen; simpl; [tauto|].
  destruct (item_url c) as [h0|]; [|apply IH].
  destruct (list_mem h0 seen) eqn:M; [apply IH|].
  simpl. intros [->|H].
  - now apply list_mem_not_In.
  - apply IH in H. intros X. apply H. now right.
Qed.

Lemma first_occurrences_NoDup (cs : list container) (seen : list str) :
  NoDup (map fst (first_occurrences seen cs)).
Proof.
  revert seen. induction cs as [|c cs IH]; intros seen; simpl;
    [constructor|].
  destruct (item_url c) as [h0|]; [|apply IH].
  destruct (list_mem h0 seen); [apply IH|].
  simpl. constructor; [|apply IH].
  intros H. apply first_occurrences_fresh in H. apply H. now left.
Qed.

Lemma first_occurrences_complete (cs : list container) (seen : list str)
      (h : str) :
  In h (map fst (first_occurrences seen cs))
  <-> ~ In h seen /\ exists c, In c cs /\ item_url c = Some h.
Proof.
  revert seen. induction cs as [|c cs IH]; intros seen.
  - simpl. split; [tauto | intros (_ & c & [] & _)].
  - cbn [first_occurrences].
    assert (Skip : item_url c <> Some h \/ In h seen ->
              (~ In h seen /\ (exists c0, In c0 cs /\ item_url c0 = Some h))
              <-> (~ In h seen /\
                   (exists c0, In c0 (c :: cs) /\ item_url c0 = Some h))).
    { intros Hc. split; intros (Hs & c0 & Hin & E); split; try assumption.
      - exists c0. split; [now right | assumption].
      - destruct Hin as [<-|Hin]; [tauto|]. now exists c0. }
    destruct (item_url c) as [h0|] eqn:Ec.
    + destruct (list_mem h0 seen) eqn:M.
      * rewrite IH. apply Skip.
        apply list_mem_In in M.
        destruct (str_eqb h0 h) eqn:E.
        -- apply str_eqb_eq in E. subst. now right.
        -- apply str_eqb_neq in E. left. congruence.
      * apply list_mem_not_In in M. cbn [map fst In]. rewrite IH.
        destruct (str_eqb h0 h) eqn:E.
        -- apply str_eqb_eq in E. subst h0. split.
           ++ intros _. split; [assumption|]. exists c.
              split; [now left | assumption].
           ++ intros _. now left.
        -- apply str_eqb_neq in E. split.
           ++ intros [X|(Hs & c0 & Hin & E0)]; [congruence|].
              split; [intros Y; apply Hs; now right|].
              exists c0. split; [now right | assumption].
           ++ intros (Hs & c0 & [<-|Hin] & E0); [congruence|].
              right. split; [intros [Y|Y]; [congruence | tauto]|].
              now exists c0.
    + rewrite IH. apply Skip. left. discriminate.
Qed.

Lemma url_recorded (l : list (str * container)) :
  map url (map recorded l) = map fst l.
Proof. rewrite map_map. apply map_ext. now intros [h c]. Qed.

Lemma absolute_relative (path : str) :
  startswith path (u "http") = false ->
  absolute path = ORIGIN ++ path /\ absolute (ORIGIN ++ path) = ORIGIN ++ path.
Proof.
  intros H. unfold absolute. rewrite H. split; reflexivity.
Qed.
Lemma item_url_relative (c : container) (path : str) :
  link c = Some (Some path) -> truthy path = true ->
  startswith path (u "http") = false ->
  item_url c = Some (ORIGIN ++ path).
Proof.
  intros L T H. unfold item_url. rewrite L, T.
  now rewrite (proj1 (absolute_relative path H)).
Qed.

Lemma item_url_absolute (c : container) (path : str) :
  link c = Some (Some (ORIGIN ++ path)) ->
  startswith path (u "http") = false ->
  item_url c = Some (ORIGIN ++ path).
Proof.
  intros L H. unfold item_url. rewrite L.
  now rewrite (proj2 (absolute_relative path H)).
Qed.

Lemma crawl_same_url_twice (c1 c2 : container) (h : str) :
  item_url c1 = Some h -> item_url c2 = Some h ->
  crawl [c1; c2] = [make_event h c1].
Proof.
  intros E1 E2. unfold crawl. rewrite crawl_loop.
  cbn [first_occurrences]. rewrite E1, E2.
  cbn [list_mem existsb]. now rewrite str_eqb_refl.
Qed.

(** C9. The events of one crawl have pairwise distinct URLs.  The URL of
    an item is its [href], prefixed with the site origin when it does not
    start with ['http']; the crawl records, in listing order, exactly the
    items whose URL no earlier item carries, so every URL of the listing
    occurs once and later items with that URL are dropped.  In
    particular a relative [href] and the absolute form it resolves to
    give one event, that of the item met first. *)
Theorem crawl_urls_distinct :
  (forall cs, crawl cs = map recorded (first_occurrences [] cs)) /\
  (forall cs, NoDup (map url (crawl cs))) /\
  (forall cs h,
      In h (map url (crawl cs))
      <-> exists c, In c cs /\ item_url c = Some h) /\
  (forall (c1 c2 : container) (path : str),
      link c1 = Some (Some path) ->
      truthy path = true ->
      startswith path (u "http") = false ->
      link c2 = Some (Some (ORIGIN ++ path)) ->
      crawl [c1; c2] = [make_event (ORIGIN ++ path) c1] /\
      crawl [c2; c1] = [make_event (ORIGIN ++ path) c2]).
Proof.
  assert (C : forall cs, crawl cs = map recorded (first_occurrences [] cs)).
  { intros cs. unfold crawl. now rewrite crawl_loop. }
  split; [exact C|]. split; [|split].
  - intros cs. rewrite C, url_recorded. apply first_occurrences_NoDup.
  - intros cs h. rewrite C, url_recorded, first_occurrences_complete.
    simpl. tauto.
  - intros c1 c2 path L1 T H L2.
    pose proof (item_url_relative c1 path L1 T H) as E1.
    pose proof (item_url_absolute c2 path L2 H) as E2.
    split; now apply crawl_same_url_twice.
Qed.

Lemma crawl_urls_distinct_witness :
  let item href title :=
    {| link := Some (Some href);
       title_strong := Some title; title_h3 := None;
       short_info := None; rating_small := None;
       short_info_price := None; clock := u "2024-01-01T00:00:00" |} in
  let c1 := item (u "/event/42") (u "Gala") in
  let c2 := item (u "https://teskerti.tn/event/42") (u "Gala (bis)") in
  link c1 = Some (Some (u "/event/42")) /\
  truthy (u "/event/42") = true /\
  startswith (u "/event/42") (u "http") = false /\
  link c2 = Some (Some (ORIGIN ++ u "/event/42")) /\
  crawl [c1; c2] = [make_event (ORIGIN ++ u "/event/42") c1] /\
  crawl [c2; c1] = [make_event (ORIGIN ++ u "/event/42") c2].
Proof.
  intros item c1 c2.
  assert (L1 : link c1 = Some (Some (u "/event/42"))) by reflexivity.
  assert (T : truthy (u "/event/42") = true) by reflexivity.
  assert (H : startswith (u "/event/42") (u "http") = false)
    by reflexivity.
  assert (L2 : link c2 = Some (Some (ORIGIN ++ u "/event/42")))
    by reflexivity.
  split; [exact L1|]. split; [exact T|]. split; [exact H|].
  split; [exact L2|].
  exact (proj2 (proj2 (proj2 crawl_urls_distinct)) c1 c2 _ L1 T H L2).
Defined.
End CrawlerFacts.

(** ** The CSV import: upsert by URL *)

Section ImportFacts.
Import events.
Local Open Scope string_scope.
Local Open Scope list_scope.

Variable fromisoformat : str -> option datetime.
Variable utcnow : datetime.

Lemma first_by_url_url (rows : list Event) (u0 : str) (r : Event) :
  first_by_url rows u0 = Some r -> url r = u0 /\ In r rows.
Proof.
  intros F. apply find_some in F as [Hin E].
  apply str_eqb_eq in E. now split.
Qed.

(** After the in-place change the query returns the changed row, as long
    as the change keeps the URL. *)
Lemma first_by_url_change (rows : list Event) (u0 : str)
      (f : Event -> Event) (r : Event) :
  (forall x, url (f x) = url x) ->
  first_by_url rows u0 = Some r ->
  first_by_url (change_first rows u0 f) u0 = Some (f r).
Proof.
  intros K. unfold first_by_url.
  induction rows as [|x rows IH]; simpl; [discriminate|].
  destruct (str_eqb (url x) u0) eqn:E.
  - intros [= ->]. simpl. now rewrite K, E.
  - intros F. simpl. rewrite E. now apply IH.
Qed.

(** The change touches one row and keeps every key, in order. *)
Lemma change_first_ids (rows : list Event) (u0 : str)
      (f : Event -> Event) :
  (forall x, id (f x) = id x) ->
  map id (change_first rows u0 f) = map id rows.
Proof.
  intros K. induction rows as [|x rows IH]; simpl; [reflexivity|].
  destruct (str_eqb (url x) u0); simpl; [now rewrite K | now rewrite IH].
Qed.

Lemma change_first_others (rows : list Event) (u0 : str)
      (f : Event -> Event) (r : Event) :
  In r rows -> url r <> u0 -> In r (change_first rows u0 f).
Proof.
  intros Hin Hne. induction rows as [|x rows IH]; simpl; [assumption|].
  destruct (str_eqb (url x) u0) eqn:E.
  - destruct Hin as [->|Hin]; [|now right].
    apply str_eqb_eq in E. contradiction.
  - destruct Hin as [->|Hin]; [now left | right; now apply IH].
Qed.

(** C3, as the code has it.  A row whose URL the store already holds
    updates the stored event in place: [name], [place], [date], [price]
    and [city] from the row, [updated_at] from the clock, [scraped_at]
    when the row supplies one, and [status] set to ['approved']; its
    [id], [url], [suggested_by_id] and [created_at] stay, as do the
    other rows, and the row counts as updated.  A row with a new URL is
    appended as a new event with status ['approved'] and counts as
    imported. *)
Theorem upsert_by_url :
  (forall (st : import_state) (row : dict str) (existing : Event),
      first_by_url (view (db st)) (dict_get_default row (u "url") [])
      = Some existing ->
      let st' := import_row fromisoformat utcnow st (row, NoFault) in
      exists stored,
        first_by_url (view (db st')) (dict_get_default row (u "url") [])
        = Some stored /\
        name stored = dict_get_default row (u "name") (name existing) /\
        place stored = dict_get_default row (u "place") (place existing) /\
        date stored = dict_get_default row (u "date") (date existing) /\
        price stored = dict_get_default row (u "price") (price existing) /\
        city stored = dict_get_default row (u "city") (city existing) /\
        updated_at stored = utcnow /\
        scraped_at stored
        = match row_scraped_at fromisoformat utcnow row with
          | Some t => t
          | None => scraped_at existing
          end /\
        status stored = u "approved" /\
        id stored = id existing /\
        url stored = url existing /\
        suggested_by_id stored = suggested_by_id existing /\
        created_at stored = created_at existing /\
        map id (view (db st')) = map id (view (db st)) /\
        (forall r, In r (view (db st)) -> url r <> url existing ->
                   In r (view (db st'))) /\
        skipped st' = (skipped st + 1)%Z /\
        imported st' = imported st /\
        errors st' = errors st) /\
  (forall (st : import_state) (row : dict str),
      first_by_url (view (db st)) (dict_get_default row (u "url") [])
      = None ->
      let st' := import_row fromisoformat utcnow st (row, NoFault) in
      exists created,
        view (db st') = view (db st) ++ [created] /\
        status created = u "approved" /\
        url created = dict_get_default row (u "url") [] /\
        name created = dict_get_default row (u "name") (u "Unknown") /\
        city created = dict_get_default row (u "city") (u "Unknown") /\
        imported st' = (imported st + 1)%Z /\
        skipped st' = skipped st /\
        errors st' = errors st).
Proof.
  split.
  - intros st row existing F st'.
    exists (update_existing fromisoformat utcnow row existing).
    unfold st', import_row. rewrite F.
    cbn [db view skipped imported errors].
    split.
    { apply first_by_url_change; [reflexivity | exact F]. }
    do 12 (split; [reflexivity|]).
    split; [apply change_first_ids; reflexivity|].
    split; [|repeat split].
    intros r Hin Hne. apply change_first_others; [exact Hin|].
    apply first_by_url_url in F as [<- _]. exact Hne.
  - intros st row F st'.
    exists (new_event fromisoformat utcnow (view (db st)) row).
    unfold st', import_row. rewrite F.
    cbn [db view skipped imported errors]. repeat split.
Qed.
End ImportFacts.

Section ImportExamples.
Import events events_spec.
Local Open Scope string_scope.

Lemma upsert_by_url_witness :
  first_by_url (view (db sample_state))
    (dict_get_default scraped_row (u "url") []) = Some pending_event /\
  exists stored,
    first_by_url
      (view (db (import_row sample_fromisoformat sample_utcnow
                   sample_state (scraped_row, NoFault))))
      (dict_get_default scraped_row (u "url") []) = Some stored /\
    name stored = u "Gala" /\
    status stored = u "approved" /\
    id stored = id pending_event.
Proof.
  assert (F : first_by_url (view (db sample_state))
                (dict_get_default scraped_row (u "url") [])
              = Some pending_event) by reflexivity.
  split; [exact F|].
  destruct (proj1 (upsert_by_url sample_fromisoformat sample_utcnow)
              sample_state scraped_row pending_event F)
    as (stored & Q & Hname & _ & _ & _ & _ & _ & _ & Hstatus & Hid & _).
  exists stored.
  split; [exact Q|]. split; [exact Hname|].
  split; [exact Hstatus | exact Hid].
Defined.

(** The claim C3 as worded fails on the stored status: importing a row
    whose URL belongs to a stored suggestion with status ['pending']
    leaves that event with status ['approved'], its [id] unchanged. *)
Lemma upsert_overwrites_stored_status :
  exists table body,
    handle_csv_import sample_fromisoformat sample_utcnow
      [pending_event] [(scraped_row, NoFault)] None
    = Answer200 table body /\
    status pending_event = u "pending" /\
    map url table = [url pending_event] /\
    map id table = [id pending_event] /\
    map status table = [u "approved"] /\
    map status table <> [status pending_event].
Proof.
  do 2 eexists. split; [reflexivity|].
  repeat split; try (vm_compute; reflexivity).
  vm_compute. discriminate.
Qed.
End ImportExamples.

(* ===================================================================== *)
(** * Part III: further properties of the code                            *)
(* ===================================================================== *)

(** ** The aggregator: order, additivity, bounds *)

Section AggregatorLaws.
Import heatmap heatmap_spec.

Lemma filter_length_perm (A : Type) (f : A -> bool) (l l' : list A) :
  Permutation l l' ->
  List.length (filter f l) = List.length (filter f l').
Proof.
  induction 1 as [|x l l' _ IH|x y l|l l' l'' _ IH1 _ IH2]; simpl.
  - reflexivity.
  - destruct (f x); simpl; congruence.
  - destruct (f x), (f y); reflexivity.
  - congruence.
Qed.

Lemma filter_length_bound (A : Type) (f : A -> bool) (l : list A) :
  (List.length (filter f l) <= List.length l)%nat.
Proof.
  induction l as [|x l IH]; simpl; [lia|].
  destruct (f x); simpl; lia.
Qed.

Lemma matching_perm (g : str) (l l' : list event) :
  Permutation l l' -> len (matching g l) = len (matching g l').
Proof.
  intros P. unfold len, matching. now rewrite (filter_length_perm _ _ l l' P).
Qed.

Lemma matching_app (g : str) (l1 l2 : list event) :
  matching g (l1 ++ l2) = matching g l1 ++ matching g l2.
Proof. apply filter_app. Qed.

Lemma map_tabulate (V W : Type) (f : str -> V) (h : str -> V -> W)
      (ks : list str) :
  map (fun kv => (fst kv, h (fst kv) (snd kv))) (tabulate f ks)
  = tabulate (fun k => h k (f k)) ks.
Proof. unfold tabulate. rewrite map_map. reflexivity. Qed.

(** The scores do not depend on the order of the events: two lists with
    the same events give the same scores and the same summary, and
    buckets with the same score, count and colour. *)
Theorem scores_order_insensitive (l l' : list event) :
  Permutation l l' ->
  calculate_governorate_scores l = calculate_governorate_scores l' /\
  get_heatmap_summary l = get_heatmap_summary l' /\
  map (fun gb => (fst gb, (score (snd gb), events_count (snd gb),
                           color (snd gb)))) (get_heatmap_data l)
  = map (fun gb => (fst gb, (score (snd gb), events_count (snd gb),
                             color (snd gb)))) (get_heatmap_data l').
Proof.
  intros P.
  assert (S : calculate_governorate_scores l
              = calculate_governorate_scores l').
  { rewrite !calculate_governorate_scores_closed.
    apply tabulate_ext. intros g _. now apply matching_perm. }
  split; [exact S|]. split.
  - unfold get_heatmap_summary. now rewrite S.
  - rewrite !get_heatmap_data_closed.
    rewrite !(map_tabulate _ _ _
                (fun _ b => (score b, events_count b, color b))).
    apply tabulate_ext. intros g _. unfold bucket_after.
    cbn [score events_count color]. now rewrite (matching_perm g l l' P).
Qed.

Lemma scores_order_insensitive_witness :
  let a := Event [] [] [] [] [] (Some (u "Sfax")) [] in
  let b := Event [] [] [] [] [] (Some (u "Tunis")) [] in
  Permutation [a; b; a] [b; a; a] /\
  calculate_governorate_scores [a; b; a]
  = calculate_governorate_scores [b; a; a].
Proof.
  intros a b.
  assert (P : Permutation [a; b; a] [b; a; a]) by apply perm_swap.
  split; [exact P|].
  exact (proj1 (scores_order_insensitive [a; b; a] [b; a; a] P)).
Defined.

(** Scores add up over concatenation, bucket by bucket and in total. *)
Theorem scores_additive (l1 l2 : list event) :
  (forall g,
      dict_get_default (calculate_governorate_scores (l1 ++ l2)) g 0%Z
      = (dict_get_default (calculate_governorate_scores l1) g 0
         + dict_get_default (calculate_governorate_scores l2) g 0)%Z) /\
  sum_ints (values (calculate_governorate_scores (l1 ++ l2)))
  = (sum_ints (values (calculate_governorate_scores l1))
     + sum_ints (values (calculate_governorate_scores l2)))%Z.
Proof.
  split.
  - intros g. rewrite !score_of_governorate.
    destruct (list_mem g TUNISIAN_GOVERNORATES); [|reflexivity].
    now rewrite matching_app, len_app.
  - rewrite !calculate_governorate_scores_closed, !values_tabulate.
    rewrite <- sum_ints_map_add. f_equal. apply map_ext. intros g.
    now rewrite matching_app, len_app.
Qed.

(** The two aggregation functions agree: the buckets of
    [get_heatmap_data] carry, in the same order, the scores of
    [calculate_governorate_scores], as [score] and as [events_count]. *)
Theorem heatmap_data_scores_agree (evs : list event) :
  map (fun gb => (fst gb, score (snd gb))) (get_heatmap_data evs)
  = calculate_governorate_scores evs /\
  map (fun gb => (fst gb, events_count (snd gb))) (get_heatmap_data evs)
  = calculate_governorate_scores evs.
Proof.
  rewrite get_heatmap_data_closed, calculate_governorate_scores_closed.
  split.
  - now rewrite (map_tabulate _ _ _ (fun _ b => score b)).
  - now rewrite (map_tabulate _ _ _ (fun _ b => events_count b)).
Qed.
End AggregatorLaws.

Section AggregatorBounds.
Import heatmap heatmap_spec.

Lemma resolved_bound (evs : list event) :
  (len (filter resolves evs) <= len evs)%Z.
Proof.
  unfold len. pose proof (filter_length_bound _ resolves evs). lia.
Qed.

Lemma matching_bound (g : str) (evs : list event) :
  (0 <= len (matching g evs) <= len evs)%Z.
Proof.
  unfold len, matching.
  pose proof (filter_length_bound _ (falls_in g) evs). lia.
Qed.

(** The number of positive entries of a list of non-negative integers is
    at most their sum and at most their number. *)
Lemma positives_bound (l : list Z) :
  Forall (fun s => 0 <= s)%Z l ->
  (len (filter (fun s => s >? 0)%Z l) <= sum_ints l)%Z /\
  (len (filter (fun s => s >? 0)%Z l) <= len l)%Z.
Proof.
  induction 1 as [|x l Hx _ [IH1 IH2]].
  - split; reflexivity.
  - rewrite sum_ints_cons. cbn [filter].
    unfold len in *. destruct (Z.gtb_spec x 0); cbn [List.length]; lia.
Qed.

(** Bounds on the aggregate: every score lies between 0 and the number of
    events; the total is at most the number of events; the number of
    active governorates is at most 24 and at most the total; and the
    total is zero exactly when no governorate is listed as having
    events. *)
Theorem summary_bounds (evs : list event) :
  let s := get_heatmap_summary evs in
  Forall (fun gs => 0 <= snd gs <= len evs)%Z
         (calculate_governorate_scores evs) /\
  (0 <= total_events s <= len evs)%Z /\
  (0 <= active_governorates s <= 24)%Z /\
  (active_governorates s <= total_events s)%Z /\
  (total_events s = 0%Z <-> governorates_with_events s = []).
Proof.
  intros s.
  assert (NN : Forall (fun x => 0 <= x)%Z
                 (values (calculate_governorate_scores evs))).
  { rewrite calculate_governorate_scores_closed, values_tabulate.
    apply Forall_forall. intros x Hx. apply in_map_iff in Hx as (g & <- & _).
    apply matching_bound. }
  assert (T : total_events s = len (filter resolves evs)).
  { unfold s, get_heatmap_summary. cbn [total_events].
    rewrite calculate_governorate_scores_closed, values_tabulate.
    apply sum_matching. }
  assert (A : active_governorates s
              = len (filter (fun x => x >? 0)%Z
                       (values (calculate_governorate_scores evs)))).
  { unfold s, get_heatmap_summary. cbn [active_governorates].
    apply sum_ints_ones. }
  destruct (positives_bound _ NN) as [P1 P2].
  split; [|split; [|split; [|split]]].
  - rewrite calculate_governorate_scores_closed.
    apply Forall_forall. intros [g x] Hx.
    apply in_map_iff in Hx as (g' & E & _). inversion E; subst. simpl.
    apply matching_bound.
  - rewrite T. split; [apply len_nonneg | apply resolved_bound].
  - rewrite A. split; [apply len_nonneg|].
    etransitivity; [exact P2|].
    rewrite calculate_governorate_scores_closed, values_tabulate.
    unfold len. rewrite length_map. reflexivity.
  - rewrite A. exact P1.
  - unfold s, get_heatmap_summary.
    cbn [total_events governorates_with_events].
    set (scores := calculate_governorate_scores evs) in *.
    clearbody scores. clear - NN. unfold values in *.
    induction scores as [|[g x] scores IH]; [split; reflexivity|].
    inversion NN as [|? ? Hx NN']; subst. cbn [map snd] in *.
    rewrite sum_ints_cons. cbn [filter snd].
    assert (0 <= sum_ints (map snd scores))%Z.
    { clear - NN'. induction scores as [|[g' y] scores IH];
        [reflexivity|].
      inversion NN'; subst. cbn [map snd] in *. rewrite sum_ints_cons.
      specialize (IH H2). lia. }
    destruct (Z.gtb_spec x 0); cbn [map fst].
    + split; [lia | discriminate].
    + rewrite <- (IH NN'). lia.
Qed.

Lemma firstn_app_prefix (A : Type) (n : nat) (m m' : list A) :
  exists rest, firstn n (m ++ m') = firstn n m ++ rest /\
               ((n <= List.length m)%nat -> rest = []).
Proof.
  rewrite firstn_app. eexists. split; [reflexivity|].
  intros H. replace (n - List.length m)%nat with 0%nat by lia. reflexivity.
Qed.

(** Buckets only grow as events are appended: the score does not
    decrease, the sample keeps the events it holds and extends at its end,
    and a sample whose bucket already counts five events or more never
    changes again. *)
Theorem bucket_grows (l l' : list event) (g : str) :
  In g TUNISIAN_GOVERNORATES ->
  exists b b',
    dict_get (get_heatmap_data l) g = Some b /\
    dict_get (get_heatmap_data (l ++ l')) g = Some b' /\
    (score b <= score b')%Z /\
    (exists rest, events b' = events b ++ rest) /\
    ((5 <= score b)%Z -> events b' = events b).
Proof.
  intros Hg. apply list_mem_In in Hg.
  exists (bucket_after g l), (bucket_after g (l ++ l')).
  rewrite !get_heatmap_data_closed, !dict_get_tabulate, Hg.
  split; [reflexivity|]. split; [reflexivity|].
  unfold bucket_after. cbn [score events].
  rewrite matching_app, len_app.
  destruct (firstn_app_prefix _ 5 (matching g l) (matching g l'))
    as (rest & E & F).
  split; [pose proof (len_nonneg _ (matching g l')); lia|].
  split; [exists rest; exact E|].
  intros H. rewrite E, F; [apply app_nil_r|]. unfold len in H. lia.
Qed.

Lemma bucket_grows_witness :
  let a := Event [] [] [] [] [] (Some (u "Sfax")) [] in
  let c := Event [] [] [] [] (u "late") (Some (u "Sfax")) [] in
  In (u "Sfax") TUNISIAN_GOVERNORATES /\
  exists b b',
    dict_get (get_heatmap_data [a; a; a; a; a]) (u "Sfax") = Some b /\
    dict_get (get_heatmap_data ([a; a; a; a; a] ++ [c])) (u "Sfax")
    = Some b' /\
    (score b <= score b')%Z /\
    (exists rest, events b' = events b ++ rest) /\
    ((5 <= score b)%Z -> events b' = events b).
Proof.
  intros a c.
  assert (H : In (u "Sfax") TUNISIAN_GOVERNORATES).
  { apply list_mem_In. vm_compute. reflexivity. }
  split; [exact H|].
  exact (bucket_grows [a; a; a; a; a] [c] (u "Sfax") H).
Defined.
End AggregatorBounds.

(** ** The resolver: what it can answer *)

Section ResolverRange.
Import heatmap heatmap_spec scraper scraper_spec.
Local Open Scope string_scope.
Local Open Scope list_scope.

Context {U : Unicode}.

Lemma alias_cities_known (kc : str * str) :
  In kc CITY_ALIASES -> In (snd kc) TUNISIAN_CITIES.
Proof.
  intros H.
  assert (A : forallb (fun kc => list_mem (snd kc) TUNISIAN_CITIES)
                CITY_ALIASES = true) by (vm_compute; reflexivity).
  rewrite forallb_forall in A. apply list_mem_In. now apply A.
Qed.

Lemma venue_cities_known (vc : str * str) :
  In vc VENUE_CITY_MAP -> In (snd vc) TUNISIAN_CITIES.
Proof.
  intros H.
  assert (A : forallb (fun vc => list_mem (snd vc) TUNISIAN_CITIES)
                VENUE_CITY_MAP = true) by (vm_compute; reflexivity).
  rewrite forallb_forall in A. apply list_mem_In. now apply A.
Qed.

Lemma cities_are_governorates (c : str) :
  In c TUNISIAN_CITIES <-> In c TUNISIAN_GOVERNORATES.
Proof.
  assert (A : forallb (fun c => list_mem c TUNISIAN_GOVERNORATES)
                TUNISIAN_CITIES = true) by (vm_compute; reflexivity).
  assert (B : forallb (fun c => list_mem c TUNISIAN_CITIES)
                TUNISIAN_GOVERNORATES = true) by (vm_compute; reflexivity).
  rewrite forallb_forall in A, B.
  split; intros H; apply list_mem_In; auto.
Qed.

Lemma title_tier_known (event_name : option str) (c : str) :
  title_tier event_name = Some c -> In c TUNISIAN_CITIES.
Proof.
  unfold title_tier. destruct event_name as [n|]; [|discriminate].
  destruct (truthy n); [|discriminate].
  destruct (find _ CITY_ALIASES) as [kc|] eqn:F; [|discriminate].
  intros [= <-]. apply find_some in F as [Hin _].
  now apply alias_cities_known.
Qed.

Lemma city_in_text_known (text c : str) :
  city_in_text text = Some c -> In c TUNISIAN_CITIES.
Proof. intros F. now apply find_some in F as [Hin _]. Qed.

Lemma venue_in_text_known (text c : str) :
  venue_in_text text = Some c -> In c TUNISIAN_CITIES.
Proof.
  unfold venue_in_text.
  destruct (find _ VENUE_CITY_MAP) as [vc|] eqn:F; [|discriminate].
  intros [= <-]. apply find_some in F as [Hin _].
  now apply venue_cities_known.
Qed.

(** A hit of a scan is a hit of its test on some block. *)
Lemma scan_blocks_hit (hit : str -> option str)
      (blocks : list (result str)) (c : str) :
  scan_blocks hit blocks = Ok (Some c) -> exists t, hit t = Some c.
Proof.
  induction blocks as [|[t|] blocks IH]; simpl; try discriminate.
  destruct (hit (lower t)) as [c'|] eqn:H.
  - intros [= <-]. now exists (lower t).
  - exact IH.
Qed.

Lemma scan_selectors_known (page : Page) (event_url : str)
      (selectors : list str) (c : str) :
  scan_selectors page event_url selectors = Ok (Some c) ->
  In c TUNISIAN_CITIES.
Proof.
  induction selectors as [|s selectors IH]; simpl; [discriminate|].
  destruct (query_selector_all page event_url s) as [blocks|]; simpl;
    [|discriminate].
  destruct (scan_blocks city_in_text blocks) as [[c'|]|] eqn:S; simpl;
    try discriminate.
  - intros [= <-]. apply scan_blocks_hit in S as (t & Ht).
    now apply city_in_text_known in Ht.
  - exact IH.
Qed.

Lemma extract_city_body_known (page : Page) (event_url : str)
      (event_name : option str) (c : str) :
  extract_city_body page event_url event_name = Ok c ->
  In c TUNISIAN_CITIES \/ c = u "Unknown".
Proof.
  unfold extract_city_body.
  destruct (goto page event_url) as [[]|]; cbn [bind]; [|discriminate].
  destruct (title_tier event_name) as [c1|] eqn:T.
  { intros [= <-]. left. now apply title_tier_known in T. }
  destruct (scan_selectors page event_url address_selectors)
    as [[c2|]|] eqn:A; cbn [bind]; try discriminate.
  { intros [= <-]. left. now apply scan_selectors_known in A. }
  destruct (query_selector_all page event_url venue_selector)
    as [blocks|]; cbn [bind]; [|discriminate].
  destruct (scan_blocks venue_in_text blocks) as [[c3|]|] eqn:V; cbn [bind];
    try discriminate.
  - intros [= <-]. left. apply scan_blocks_hit in V as (t & Ht).
    now apply venue_in_text_known in Ht.
  - intros [= <-]. now right.
Qed.

Lemma extract_city_cases (page : Page) (event_url : str)
      (event_name : option str) :
  let answer := extract_city_from_event_page page event_url event_name in
  In answer TUNISIAN_CITIES \/ answer = u "Unknown" \/ answer = u "Error".
Proof.
  intros answer. unfold answer, extract_city_from_event_page.
  destruct (extract_city_body page event_url event_name) as [c|] eqn:B.
  - apply extract_city_body_known in B. tauto.
  - right; right. reflexivity.
Qed.

(** Whatever the page and the title, the resolver answers one of the 24
    names of [TUNISIAN_CITIES], ['Unknown'] or ['Error']; and each of the
    24 names is a governorate of the heat map. *)
Theorem resolver_answers (page : Page) (event_url : str)
        (event_name : option str) :
  let answer := extract_city_from_event_page page event_url event_name in
  (In answer TUNISIAN_CITIES \/ answer = u "Unknown" \/ answer = u "Error")
  /\ (In answer TUNISIAN_CITIES -> In answer TUNISIAN_GOVERNORATES).
Proof.
  intros answer. split; [|apply cities_are_governorates].
  apply extract_city_cases.
Qed.
End ResolverRange.

(** ** From the crawl to the heat map *)

Section CrawlToHeatmap.
Import heatmap heatmap_spec scraper scraper_spec.
Local Open Scope string_scope.
Local Open Scope list_scope.

Context {U : Unicode}.

Lemma governorates_stripped (g : str) :
  In g TUNISIAN_GOVERNORATES -> strip g = g.
Proof.
  intros H.
  assert (A : forallb (fun g => str_eqb (strip g) g) TUNISIAN_GOVERNORATES
              = true) by (vm_compute; reflexivity).
  rewrite forallb_forall in A. apply str_eqb_eq. now apply A.
Qed.

Lemma governorates_not_error (g : str) :
  In g TUNISIAN_GOVERNORATES -> str_eqb g (u "Error") = false.
Proof.
  intros H.
  assert (A : forallb (fun g => negb (str_eqb g (u "Error")))
                TUNISIAN_GOVERNORATES = true) by (vm_compute; reflexivity).
  rewrite forallb_forall in A. apply negb_true_iff. now apply A.
Qed.

Lemma unknown_not_a_city : ~ In (u "Unknown") TUNISIAN_CITIES.
Proof. apply list_mem_not_In. vm_compute. reflexivity. Qed.

(** The city the orchestrator stores is ['Error'] or a governorate. *)
Lemma resolve_event_city (page : Page) (e : event) :
  exists c, city (resolve_event page e) = Some c /\
            (c = u "Error" \/ In c TUNISIAN_GOVERNORATES).
Proof.
  unfold resolve_event. cbn [city]. eexists. split; [reflexivity|].
  destruct (extract_city_cases page (url e) (Some (name e)))
    as [K|[K|K]]; cbv zeta in K.
  - destruct (str_eqb _ (u "Unknown")) eqn:E.
    + apply str_eqb_eq in E. rewrite E in K.
      now apply unknown_not_a_city in K.
    + right. now apply cities_are_governorates.
  - rewrite K. right. apply list_mem_In. vm_compute. reflexivity.
  - rewrite K. left. reflexivity.
Qed.

(** Such an event is counted by the aggregator unless it is an error. *)
Lemma resolves_unless_error (e : event) (c : str) :
  city e = Some c ->
  c = u "Error" \/ In c TUNISIAN_GOVERNORATES ->
  resolves e = negb (str_eqb (get_city e) (u "Error")).
Proof.
  intros C K. rewrite resolves_char. unfold get_city. rewrite C.
  destruct K as [->|K].
  - vm_compute. reflexivity.
  - rewrite (governorates_stripped c K), (governorates_not_error c K).
    now apply list_mem_In.
Qed.

(** Every event the orchestrator returns carries a city that is a
    governorate of the heat map or ['Error'], never ['Pending'] or
    ['Unknown']; so the scores of one crawl add up to the number of its
    events that are not errors. *)
Theorem scraped_events_counted (page : Page) (cs : list container) :
  let evs := scrape_events page cs in
  Forall (fun e => exists c, city e = Some c /\
                     (c = u "Error" \/ In c TUNISIAN_GOVERNORATES)) evs /\
  Forall (fun e => city e <> Some (u "Pending") /\
                   city e <> Some (u "Unknown")) evs /\
  sum_ints (values (calculate_governorate_scores evs))
  = len (filter (fun e => negb (str_eqb (get_city e) (u "Error"))) evs).
Proof.
  intros evs.
  assert (A : Forall (fun e => exists c, city e = Some c /\
                     (c = u "Error" \/ In c TUNISIAN_GOVERNORATES)) evs).
  { apply Forall_forall. intros e' H. unfold evs, scrape_events in H.
    apply in_map_iff in H as (e & <- & _). apply resolve_event_city. }
  split; [exact A|]. split.
  - apply Forall_forall. intros e He.
    rewrite Forall_forall in A. destruct (A e He) as (c & C & K).
    rewrite C. split; intros [= ->]; destruct K as [K|K];
      try (vm_compute in K; discriminate K);
      apply list_mem_In in K; vm_compute in K; discriminate K.
  - rewrite calculate_governorate_scores_closed, values_tabulate.
    rewrite sum_matching. unfold len. f_equal. f_equal.
    apply filter_ext_in. intros e He.
    rewrite Forall_forall in A. destruct (A e He) as (c & C & K).
    now apply (resolves_unless_error e c).
Qed.
End CrawlToHeatmap.

(** ** The resolver: first hit, failures, and ['Unknown'] *)

Section ResolverTiers.
Import heatmap scraper scraper_spec.
Local Open Scope string_scope.
Local Open Scope list_scope.

Context {U : Unicode}.

(** A scan passes over the blocks that read and miss, and stops at the
    first block that hits or fails to read. *)
Lemma scan_blocks_skip (hit : str -> option str) (pre : list str)
      (blocks : list (result str)) :
  Forall (fun t => hit (lower t) = None) pre ->
  scan_blocks hit (map Ok pre ++ blocks) = scan_blocks hit blocks.
Proof.
  induction 1 as [|t pre Ht _ IH]; [reflexivity|].
  cbn [map app scan_blocks bind]. now rewrite Ht.
Qed.

Lemma scan_blocks_none (hit : str -> option str)
      (blocks : list (result str)) :
  scan_blocks hit blocks = Ok None <->
  exists texts, blocks = map Ok texts /\
                Forall (fun t => hit (lower t) = None) texts.
Proof.
  split.
  - induction blocks as [|[t|] blocks IH]; cbn [scan_blocks bind].
    + intros _. exists []. split; [reflexivity | constructor].
    + destruct (hit (lower t)) eqn:H; [discriminate|].
      intros S. destruct (IH S) as (texts & -> & F).
      exists (t :: texts). split; [reflexivity | now constructor].
    + discriminate.
  - intros (texts & -> & F).
    rewrite <- (app_nil_r (map Ok texts)).
    now rewrite scan_blocks_skip.
Qed.

(** Tier 2 stops at the first address block that names a city: with no
    alias in the title and the page loaded, if the blocks of the first
    address selector read without a city up to a block that names one, the
    answer is that city, whatever comes after (later blocks, the other
    selectors, the venue blocks, even when reading them would raise).  If
    instead that block cannot be read, or the query itself raises, the
    answer is ['Error']. *)
Theorem address_tier_first_hit :
  (forall (page : Page) (event_url : str) (event_name : option str)
          (pre : list str) (t c : str) (rest : list (result str)),
      goto page event_url = Ok tt ->
      title_tier event_name = None ->
      query_selector_all page event_url (attr_selector "div" "address")
      = Ok (map Ok pre ++ Ok t :: rest) ->
      Forall (fun p => city_in_text (lower p) = None) pre ->
      city_in_text (lower t) = Some c ->
      extract_city_from_event_page page event_url event_name = c) /\
  (forall (page : Page) (event_url : str) (event_name : option str)
          (pre : list str) (rest : list (result str)),
      goto page event_url = Ok tt ->
      title_tier event_name = None ->
      query_selector_all page event_url (attr_selector "div" "address")
      = Ok (map Ok pre ++ Raise :: rest) ->
      Forall (fun p => city_in_text (lower p) = None) pre ->
      extract_city_from_event_page page event_url event_name = u "Error") /\
  (forall (page : Page) (event_url : str) (event_name : option str),
      goto page event_url = Ok tt ->
      title_tier event_name = None ->
      query_selector_all page event_url (attr_selector "div" "address")
      = Raise ->
      extract_city_from_event_page page event_url event_name = u "Error").
Proof.
  split; [|split].
  - intros page event_url event_name pre t c rest G T Q F H.
    unfold extract_city_from_event_page, extract_city_body.
    rewrite G. cbn [bind]. rewrite T.
    unfold address_selectors. cbn [scan_selectors]. rewrite Q. cbn [bind].
    rewrite (scan_blocks_skip _ _ _ F). cbn [scan_blocks bind].
    rewrite H. reflexivity.
  - intros page event_url event_name pre rest G T Q F.
    unfold extract_city_from_event_page, extract_city_body.
    rewrite G. cbn [bind]. rewrite T.
    unfold address_selectors. cbn [scan_selectors]. rewrite Q. cbn [bind].
    rewrite (scan_blocks_skip _ _ _ F). reflexivity.
  - intros page event_url event_name G T Q.
    unfold extract_city_from_event_page, extract_city_body.
    rewrite G. cbn [bind]. rewrite T.
    unfold address_selectors. cbn [scan_selectors]. rewrite Q. reflexivity.
Qed.
End ResolverTiers.

Section ResolverTiersExamples.
Import heatmap scraper scraper_spec.
Local Open Scope string_scope.
Local Open Scope list_scope.

Lemma address_tier_first_hit_witness :
  let event_url := u "https://teskerti.tn/event/1" in
  let name := Some (u "Soirée") in
  let t := u "12 avenue Hedi Chaker, Sfax" in
  goto sfax_page event_url = Ok tt /\
  @title_tier latin1 name = None /\
  query_selector_all sfax_page event_url (attr_selector "div" "address")
  = Ok (map Ok [] ++ Ok t :: []) /\
  Forall (fun p => @city_in_text latin1 (@lower latin1 p) = None) [] /\
  @city_in_text latin1 (@lower latin1 t) = Some (u "Sfax") /\
  @extract_city_from_event_page latin1 sfax_page event_url name = u "Sfax".
Proof.
  intros event_url name t.
  assert (G : goto sfax_page event_url = Ok tt) by reflexivity.
  assert (T : @title_tier latin1 name = None) by (vm_compute; reflexivity).
  assert (Q : query_selector_all sfax_page event_url
                (attr_selector "div" "address")
              = Ok (map Ok [] ++ Ok t :: [])) by (vm_compute; reflexivity).
  assert (F : Forall (fun p => @city_in_text latin1 (@lower latin1 p) = None)
                []) by constructor.
  assert (H : @city_in_text latin1 (@lower latin1 t) = Some (u "Sfax"))
    by (vm_compute; reflexivity).
  split; [exact G|]. split; [exact T|]. split; [exact Q|].
  split; [exact F|]. split; [exact H|].
  exact (proj1 (@address_tier_first_hit latin1)
           sfax_page event_url name [] t (u "Sfax") [] G T Q F H).
Defined.
End ResolverTiersExamples.

Section ResolverUnknown.
Import heatmap scraper scraper_spec scraper_laws.
Local Open Scope string_scope.
Local Open Scope list_scope.

Context {U : Unicode}.

Lemma scan_selectors_none (page : Page) (event_url : str)
      (selectors : list str) :
  scan_selectors page event_url selectors = Ok None <->
  Forall (fun selector =>
            exists texts,
              query_selector_all page event_url selector
              = Ok (map Ok texts) /\
              Forall (fun t => city_in_text (lower t) = None) texts)
         selectors.
Proof.
  induction selectors as [|s selectors IH]; cbn [scan_selectors].
  - split; [constructor | reflexivity].
  - split.
    + destruct (query_selector_all page event_url s) as [blocks|] eqn:Q;
        cbn [bind]; [|discriminate].
      destruct (scan_blocks city_in_text blocks) as [[c|]|] eqn:S;
        cbn [bind]; try discriminate.
      intros R. constructor; [|now apply IH].
      apply scan_blocks_none in S as (texts & -> & F). now exists texts.
    + intros F. inversion F as [|? ? (texts & Q & M) F']; subst.
      rewrite Q. cbn [bind].
      assert (S : scan_blocks city_in_text (map Ok texts) = Ok None).
      { apply scan_blocks_none. now exists texts. }
      rewrite S. cbn [bind]. now apply IH.
Qed.

(** The answer is ['Unknown'] exactly when the page loads, the title
    holds no alias, every address block and every venue block is read
    without an exception, and none of them matches. *)
Theorem unknown_iff_nothing_matched (page : Page) (event_url : str)
        (event_name : option str) :
  extract_city_from_event_page page event_url event_name = u "Unknown"
  <->
  goto page event_url = Ok tt /\
  title_tier event_name = None /\
  address_blocks_silent page event_url /\
  exists texts,
    query_selector_all page event_url venue_selector = Ok (map Ok texts) /\
    Forall (fun t => venue_in_text (lower t) = None) texts.
Proof.
  unfold address_blocks_silent. rewrite <- scan_selectors_none.
  unfold extract_city_from_event_page, extract_city_body. split.
  - destruct (goto page event_url) as [[]|]; cbn [bind];
      [|intros X; vm_compute in X; discriminate X].
    destruct (title_tier event_name) as [c1|] eqn:T.
    { intros ->. apply title_tier_known in T.
      now apply unknown_not_a_city in T. }
    destruct (scan_selectors page event_url address_selectors)
      as [[c2|]|] eqn:A; cbn [bind];
      [| |intros X; vm_compute in X; discriminate X].
    { intros ->. apply scan_selectors_known in A.
      now apply unknown_not_a_city in A. }
    destruct (query_selector_all page event_url venue_selector)
      as [blocks|]; cbn [bind];
      [|intros X; vm_compute in X; discriminate X].
    destruct (scan_blocks venue_in_text blocks) as [[c3|]|] eqn:V;
      cbn [bind]; [| |intros X; vm_compute in X; discriminate X].
    { intros ->. apply scan_blocks_hit in V as (t & Ht).
      apply venue_in_text_known in Ht. now apply unknown_not_a_city in Ht. }
    intros _. apply scan_blocks_none in V as (texts & -> & F).
    repeat split; try reflexivity. now exists texts.
  - intros (G & T & A & texts & Q & F).
    rewrite G. cbn [bind]. rewrite T, A. cbn [bind]. rewrite Q. cbn [bind].
    assert (S : scan_blocks venue_in_text (map Ok texts) = Ok None).
    { apply scan_blocks_none. now exists texts. }
    now rewrite S.
Qed.
End ResolverUnknown.

(** ** Whole-word search and substring search *)

Section WordSearch.
Import scraper scraper_laws.
Local Open Scope list_scope.

Context {U : Unicode}.

Lemma startswith_iff (text pat : str) :
  startswith text pat = true <-> exists post, text = pat ++ post.
Proof.
  revert text. induction pat as [|x pat IH]; intros text.
  - destruct text; simpl; split; eauto.
  - destruct text as [|y text]; simpl.
    + split; [discriminate | intros (post & E); discriminate E].
    + rewrite andb_true_iff, N.eqb_eq, IH. split.
      * intros (-> & post & ->). now exists post.
      * intros (post & E). inversion E; subst. split; eauto.
Qed.

Lemma skipn_exact (A : Type) (l1 l2 : list A) :
  skipn (List.length l1) (l1 ++ l2) = l2.
Proof. induction l1 as [|x l1 IH]; [reflexivity | exact IH]. Qed.

Lemma last_cons_default (A : Type) (x d : A) (l : list A) :
  last (x :: l) d = last l x.
Proof.
  revert x d. induction l as [|y l IH]; intros x d; [reflexivity|].
  change (last (x :: y :: l) d) with (last (y :: l) d).
  now rewrite (IH y d), (IH y x).
Qed.

Lemma last_app_default (A : Type) (l1 l2 : list A) (d : A) :
  last (l1 ++ l2) d = last l2 (last l1 d).
Proof.
  revert d. induction l1 as [|x l1 IH]; intros d; [reflexivity|].
  change ((x :: l1) ++ l2) with (x :: (l1 ++ l2)).
  now rewrite !last_cons_default, IH.
Qed.

Lemma search_from_unfold (prev : option N) (text pat : str) :
  search_from prev text pat
  = match_here prev text pat
    || match text with
       | [] => false
       | c :: rest => search_from (Some c) rest pat
       end.
Proof. destruct text; reflexivity. Qed.

Lemma match_here_iff (prev : option N) (text pat : str) :
  match_here prev text pat = true <->
  exists post,
    text = pat ++ post /\
    boundary prev (hd_error (pat ++ post)) = true /\
    boundary (last (map Some pat) prev) (hd_error post) = true.
Proof.
  unfold match_here. rewrite !andb_true_iff, startswith_iff. split.
  - intros [[B1 (post & ->)] B2]. exists post.
    rewrite skipn_exact in B2. auto.
  - intros (post & -> & B1 & B2). rewrite skipn_exact. eauto.
Qed.

Lemma search_from_iff (prev : option N) (text pat : str) :
  search_from prev text pat = true <->
  exists pre post,
    text = pre ++ pat ++ post /\
    boundary (last (map Some pre) prev) (hd_error (pat ++ post)) = true /\
    boundary (last (map Some pat) (last (map Some pre) prev))
             (hd_error post) = true.
Proof.
  split.
  - revert prev. induction text as [|c text IH]; intros prev;
      rewrite search_from_unfold, orb_true_iff; intros [M|R];
      try discriminate.
    + apply match_here_iff in M as (post & E & B1 & B2).
      exists [], post. auto.
    + apply match_here_iff in M as (post & E & B1 & B2).
      exists [], post. auto.
    + apply IH in R as (pre & post & -> & B1 & B2).
      exists (c :: pre), post. cbn [map].
      rewrite last_cons_default. auto.
  - intros (pre & post & -> & B1 & B2). revert prev B1 B2.
    induction pre as [|c pre IH]; intros prev B1 B2;
      rewrite search_from_unfold, orb_true_iff.
    + left. apply match_here_iff. exists post. auto.
    + right. cbn [app]. apply IH.
      * cbn [map] in B1. now rewrite last_cons_default in B1.
      * cbn [map] in B2. now rewrite last_cons_default in B2.
Qed.

Lemma contains_iff (s p : str) :
  contains s p = true <-> exists pre post, s = pre ++ p ++ post.
Proof.
  split.
  - induction s as [|c s IH]; cbn [contains];
      rewrite orb_true_iff, startswith_iff; intros [(post & E)|R];
      try discriminate.
    + exists [], post. exact E.
    + exists [], post. exact E.
    + apply IH in R as (pre & post & ->). now exists (c :: pre), post.
  - intros (pre & post & ->).
    induction pre as [|c pre IH].
    + destruct (p ++ post) eqn:E; cbn [contains app]; rewrite <- ?E;
        apply orb_true_iff; left; apply startswith_iff; now exists post.
    + cbn [app contains]. rewrite IH. apply orb_true_r.
Qed.

(** [search_word pat text] holds exactly when [pat] occurs in [text] at a
    place with a word boundary just before it and just after it; such an
    occurrence is in particular a substring occurrence, which is what
    [contains] (the [in] of tier 3) tests. *)
Theorem search_word_spec (pat text : str) :
  (search_word pat text = true <->
   exists pre post,
     text = pre ++ pat ++ post /\
     boundary_between pre (pat ++ post) = true /\
     boundary_between (pre ++ pat) post = true) /\
  (contains text pat = true <-> exists pre post, text = pre ++ pat ++ post) /\
  (search_word pat text = true -> contains text pat = true).
Proof.
  assert (S : search_word pat text = true <->
              exists pre post,
                text = pre ++ pat ++ post /\
                boundary_between pre (pat ++ post) = true /\
                boundary_between (pre ++ pat) post = true).
  { unfold search_word, boundary_between. rewrite search_from_iff.
    split; intros (pre & post & E & B1 & B2); exists pre, post;
      rewrite map_app, last_app_default in *; auto. }
  split; [exact S|]. split; [apply contains_iff|].
  intros H. apply S in H as (pre & post & E & _).
  apply contains_iff. now exists pre, post.
Qed.
End WordSearch.

(** ** [strip] *)

Section Strip.
Local Open Scope list_scope.

Lemma lstrip_clean (s : str) : clean_head (lstrip s).
Proof.
  induction s as [|c s IH]; simpl; [exact I|].
  destruct (isspace c) eqn:E; [exact IH | exact E].
Qed.

Lemma lstrip_fix (s : str) : clean_head s -> lstrip s = s.
Proof. destruct s as [|c s]; simpl; [reflexivity | now intros ->]. Qed.

Lemma lstrip_suffix (s : str) : exists pre, s = pre ++ lstrip s.
Proof.
  induction s as [|c s (pre & E)]; simpl; [now exists []|].
  destruct (isspace c).
  - exists (c :: pre). simpl. now f_equal.
  - now exists [].
Qed.

Lemma clean_head_prefix (r tail : str) :
  clean_head (r ++ tail) -> r <> [] -> clean_head r.
Proof. destruct r; simpl; [congruence | auto]. Qed.

Lemma strip_idempotent (s : str) : strip (strip s) = strip s.
Proof.
  unfold strip, rstrip.
  set (a := lstrip s).
  set (b := lstrip (rev a)).
  assert (Ca : clean_head a) by apply lstrip_clean.
  assert (Cb : clean_head b) by apply lstrip_clean.
  destruct (lstrip_suffix (rev a)) as (pre & E). fold b in E.
  assert (Ea : a = rev b ++ rev pre).
  { rewrite <- rev_app_distr, <- E. now rewrite rev_involutive. }
  assert (Cr : clean_head (rev b)).
  { destruct (rev b) eqn:R; [exact I|].
    rewrite Ea in Ca. exact Ca. }
  rewrite (lstrip_fix _ Cr), rev_involutive.
  now rewrite (lstrip_fix _ Cb).
Qed.

Lemma strip_In (s : str) (x : N) : In x (strip s) -> In x s.
Proof.
  unfold strip, rstrip. intros H. apply in_rev in H.
  destruct (lstrip_suffix (rev (lstrip s))) as (pre & E).
  assert (H1 : In x (rev (lstrip s))).
  { rewrite E. apply in_or_app. now right. }
  apply in_rev in H1.
  destruct (lstrip_suffix s) as (pre' & E'). rewrite E'.
  apply in_or_app. now right.
Qed.
End Strip.

(** ** The crawler: shape of the events, repeated listings *)

Section CrawlerShape.
Import heatmap scraper scraper_spec.
Local Open Scope string_scope.
Local Open Scope list_scope.

Lemma absolute_http (href : str) :
  startswith (absolute href) (u "http") = true.
Proof.
  unfold absolute. destruct (startswith href (u "http")) eqn:E;
    [exact E | reflexivity].
Qed.

Lemma first_occurrences_item (seen : list str) (cs : list container)
      (h : str) (c : container) :
  In (h, c) (first_occurrences seen cs) -> In c cs /\ item_url c = Some h.
Proof.
  revert seen. induction cs as [|c0 cs IH]; intros seen; simpl; [tauto|].
  destruct (item_url c0) as [h0|] eqn:E.
  - destruct (list_mem h0 seen).
    + intros H. apply IH in H. tauto.
    + intros [[= <- <-]|H]; [tauto|]. apply IH in H. tauto.
  - intros H. apply IH in H. tauto.
Qed.

Lemma item_url_http (c : container) (h : str) :
  item_url c = Some h -> startswith h (u "http") = true.
Proof.
  unfold item_url. destruct (link c) as [[href|]|]; try discriminate.
  destruct (truthy href); [|discriminate].
  intros [= <-]. apply absolute_http.
Qed.

Lemma first_line_no_newline (s : str) : ~ In 10%N (first_line s).
Proof.
  induction s as [|c s IH]; simpl; [tauto|].
  destruct (N.eqb_spec c 10); simpl; [tauto|]. intros [E|H]; auto.
Qed.

(** Every event of a crawl has an absolute URL (it starts with ['http']),
    the city ['Pending'], and text fields without white space at either
    end ([strip] leaves them as they are); its place holds no line break.
    A missing element gives the fixed value, never a failure: the crawl
    has at most one event per item. *)
Theorem crawled_event_shape (cs : list container) :
  Forall (fun e =>
            startswith (url e) (u "http") = true /\
            city e = Some (u "Pending") /\
            strip (name e) = name e /\ strip (place e) = place e /\
            strip (date e) = date e /\ strip (price e) = price e /\
            ~ In 10%N (place e))
         (crawl cs) /\
  (List.length (crawl cs) <= List.length cs)%nat.
Proof.
  assert (C : crawl cs = map recorded (first_occurrences [] cs)).
  { unfold crawl. now rewrite crawl_loop. }
  split.
  - rewrite C. apply Forall_forall. intros e H.
    apply in_map_iff in H as ([h c] & <- & H).
    apply first_occurrences_item in H as [_ Hu].
    unfold recorded, make_event. cbn [fst snd url city name place date price].
    split; [now apply (item_url_http c)|]. split; [reflexivity|].
    repeat split.
    + destruct (title_strong c); [apply strip_idempotent|].
      destruct (title_h3 c); [apply strip_idempotent | reflexivity].
    + destruct (short_info c); [apply strip_idempotent | reflexivity].
    + destruct (rating_small c); [apply strip_idempotent | reflexivity].
    + destruct (short_info_price c); [apply strip_idempotent | reflexivity].
    + destruct (short_info c) as [t|].
      * intros H. apply strip_In in H. now apply first_line_no_newline in H.
      * intros H. vm_compute in H. repeat destruct H as [H|H]; try discriminate.
        exact H.
  - rewrite C, length_map. clear C. generalize (@nil str).
    induction cs as [|c cs IH]; intros seen; simpl; [lia|].
    destruct (item_url c) as [h|].
    + destruct (list_mem h seen); simpl.
      * specialize (IH seen). lia.
      * specialize (IH (h :: seen)). lia.
    + specialize (IH seen). lia.
Qed.
End CrawlerShape.

Section CrawlerRepeats.
Import heatmap scraper scraper_spec.
Local Open Scope string_scope.
Local Open Scope list_scope.

Lemma first_occurrences_app (seen : list str) (cs1 cs2 : list container) :
  first_occurrences seen (cs1 ++ cs2)
  = first_occurrences seen cs1
    ++ first_occurrences
         (rev (map fst (first_occurrences seen cs1)) ++ seen) cs2.
Proof.
  revert seen. induction cs1 as [|c cs1 IH]; intros seen; [reflexivity|].
  cbn [app first_occurrences].
  destruct (item_url c) as [h|]; [|apply IH].
  destruct (list_mem h seen); [apply IH|].
  rewrite IH. cbn [map fst rev app]. now rewrite <- app_assoc.
Qed.

Lemma first_occurrences_all_seen (seen : list str) (cs : list container) :
  (forall c h, In c cs -> item_url c = Some h -> In h seen) ->
  first_occurrences seen cs = [].
Proof.
  induction cs as [|c cs IH]; intros H; [reflexivity|].
  cbn [first_occurrences].
  destruct (item_url c) as [h|] eqn:E.
  - assert (M : list_mem h seen = true).
    { apply list_mem_In. apply (H c); [now left | exact E]. }
    rewrite M. apply IH. intros c' h' Hin. apply H. now right.
  - apply IH. intros c' h' Hin. apply H. now right.
Qed.

Lemma crawl_first_occurrences (cs : list container) :
  crawl cs = map recorded (first_occurrences [] cs).
Proof. unfold crawl. now rewrite crawl_loop. Qed.

Lemma crawl_append_known (cs cs' : list container) :
  (forall c h, In c cs' -> item_url c = Some h ->
               exists c0, In c0 cs /\ item_url c0 = Some h) ->
  crawl (cs ++ cs') = crawl cs.
Proof.
  intros H. rewrite !crawl_first_occurrences, first_occurrences_app.
  rewrite (first_occurrences_all_seen _ cs'); [now rewrite app_nil_r|].
  intros c h Hin E. rewrite app_nil_r. apply in_rev. rewrite rev_involutive.
  apply first_occurrences_complete. split; [tauto|]. now apply (H c).
Qed.

(** Appending items to the listing only appends events; items whose URL
    the listing already holds add nothing, so a listing that shows its
    items twice gives the events of showing them once; and the crawl is
    empty exactly when no item has a link with a non-empty [href]. *)
Theorem crawl_repeated_listing :
  (forall cs cs', exists more, crawl (cs ++ cs') = crawl cs ++ more) /\
  (forall cs cs',
      (forall c h, In c cs' -> item_url c = Some h ->
                   exists c0, In c0 cs /\ item_url c0 = Some h) ->
      crawl (cs ++ cs') = crawl cs) /\
  (forall cs, crawl (cs ++ cs) = crawl cs) /\
  (forall cs, crawl cs = [] <-> Forall (fun c => item_url c = None) cs).
Proof.
  split; [|split; [|split]].
  - intros cs cs'. rewrite !crawl_first_occurrences, first_occurrences_app.
    rewrite map_app. eexists. reflexivity.
  - apply crawl_append_known.
  - intros cs. apply crawl_append_known. intros c h Hin E. now exists c.
  - intros cs. split.
    + intros E. apply Forall_forall. intros c Hin.
      destruct (item_url c) as [h|] eqn:Eu; [|reflexivity]. exfalso.
      assert (H : In h (map fst (first_occurrences [] cs))).
      { apply first_occurrences_complete. split; [tauto|]. now exists c. }
      rewrite crawl_first_occurrences in E.
      apply map_eq_nil in E. rewrite E in H. exact H.
    + intros F. rewrite crawl_first_occurrences.
      rewrite first_occurrences_all_seen; [reflexivity|].
      intros c h Hin E. rewrite Forall_forall in F.
      rewrite (F c Hin) in E. discriminate E.
Qed.

Lemma crawl_repeated_listing_witness :
  let item href :=
    {| link := Some (Some href);
       title_strong := None; title_h3 := None;
       short_info := None; rating_small := None;
       short_info_price := None; clock := u "2024-01-01T00:00:00" |} in
  let cs := [item (u "/event/1"); item (u "/event/2")] in
  let cs' := [item (u "https://teskerti.tn/event/2")] in
  (forall c h, In c cs' -> item_url c = Some h ->
               exists c0, In c0 cs /\ item_url c0 = Some h) /\
  crawl (cs ++ cs') = crawl cs.
Proof.
  intros item cs cs'.
  assert (H : forall c h, In c cs' -> item_url c = Some h ->
                          exists c0, In c0 cs /\ item_url c0 = Some h).
  { intros c h [<-|[]] E. exists (item (u "/event/2")).
    split; [right; left; reflexivity|]. rewrite <- E. reflexivity. }
  split; [exact H|].
  exact (proj1 (proj2 crawl_repeated_listing) cs cs' H).
Defined.
End CrawlerRepeats.

(** ** The import: counters *)

Section ImportCounters.
Import events events_laws.
Local Open Scope string_scope.
Local Open Scope list_scope.

Variable fromisoformat : str -> option datetime.
Variable utcnow : datetime.

Lemma import_row_counters (st : import_state) (rf : dict str * fault) :
  let st' := import_row fromisoformat utcnow st rf in
  (imported st' + skipped st' + len (errors st')
   = imported st + skipped st + len (errors st) + 1)%Z /\
  (imported st <= imported st')%Z /\
  len (errors st') = (len (errors st) + if is_other rf then 1 else 0)%Z.
Proof.
  destruct rf as [row [| |message]]; unfold import_row, is_other;
    cbn [snd].
  - destruct (first_by_url _ _); cbn [imported skipped errors];
      repeat split; try lia; auto.
  - cbn [imported skipped errors]. repeat split; try lia; auto.
  - cbn [imported skipped errors]. rewrite len_app.
    change (len [_]) with 1%Z. repeat split; try lia; auto.
Qed.

Lemma import_rows_counters (rows : list (dict str * fault))
      (st : import_state) :
  let st' := fold_left (import_row fromisoformat utcnow) rows st in
  (imported st' + skipped st' + len (errors st')
   = imported st + skipped st + len (errors st) + len rows)%Z /\
  (imported st <= imported st')%Z /\
  len (errors st') = (len (errors st) + len (filter is_other rows))%Z.
Proof.
  revert st. induction rows as [|rf rows IH]; intros st; cbn [fold_left].
  - unfold len. simpl. repeat split; lia.
  - destruct (IH (import_row fromisoformat utcnow st rf)) as (A & B & C).
    destruct (import_row_counters st rf) as (A' & B' & C').
    cbv zeta in *. cbn [filter].
    replace (len (rf :: rows)) with (1 + len rows)%Z
      by (unfold len; cbn [List.length]; lia).
    repeat split; try lia.
    rewrite C, C'. destruct (is_other rf); [|lia].
    unfold len. cbn [List.length]. lia.
Qed.

(** Every row of the file is counted once: when the request ends with
    the answer 200, [imported], [updated] and the number of error messages
    add up to the number of rows; the error messages are as many as the
    rows that raised another exception than [IntegrityError], and [errors]
    is [None] exactly when there is none. *)
Theorem import_counts_every_row (rows0 : list Event)
        (rows : list (dict str * fault)) :
  exists table body,
    handle_csv_import fromisoformat utcnow rows0 rows None
    = Answer200 table body /\
    (resp_imported body + resp_updated body + errors_count body
     = len rows)%Z /\
    (0 <= resp_imported body)%Z /\
    errors_count body = len (filter is_other rows) /\
    (resp_errors body = None <-> filter is_other rows = []).
Proof.
  unfold handle_csv_import. do 2 eexists. split; [reflexivity|].
  pose proof (import_rows_counters rows
                {| db := {| committed := rows0; view := rows0 |};
                   imported := 0; skipped := 0; errors := [] |})
    as (A & B & C).
  cbv zeta in A, B, C. cbn [imported skipped errors] in A, B, C.
  change (len (@nil str)) with 0%Z in A, C.
  unfold errors_count. cbn [resp_imported resp_updated resp_errors].
  set (st := fold_left _ rows _) in *.
  destruct (errors st) as [|m ms] eqn:E.
  - change (len (@nil str)) with 0%Z in *.
    split; [lia|]. split; [lia|]. split; [lia|].
    split; [|reflexivity].
    intros _. destruct (filter is_other rows); [reflexivity|].
    unfold len in C. cbn [List.length] in C. lia.
  - split; [lia|]. split; [lia|]. split; [lia|].
    split; [discriminate|].
    intros F. rewrite F in C. unfold len in C. cbn [List.length] in C.
    lia.
Qed.
End ImportCounters.

(** ** The import: keys of the table *)

Section ImportKeys.
Import events events_laws.
Local Open Scope string_scope.
Local Open Scope list_scope.

Variable fromisoformat : str -> option datetime.
Variable utcnow : datetime.

Lemma first_by_url_none (rows : list Event) (u0 : str) :
  first_by_url rows u0 = None <-> ~ In u0 (map url rows).
Proof.
  unfold first_by_url. induction rows as [|r rows IH]; simpl; [tauto|].
  destruct (str_eqb (url r) u0) eqn:E.
  - apply str_eqb_eq in E. split; [discriminate | tauto].
  - apply str_eqb_neq in E. rewrite IH. tauto.
Qed.

Lemma change_first_urls (rows : list Event) (u0 : str)
      (f : Event -> Event) :
  (forall x, url (f x) = url x) ->
  map url (change_first rows u0 f) = map url rows.
Proof.
  intros K. induction rows as [|x rows IH]; simpl; [reflexivity|].
  destruct (str_eqb (url x) u0); simpl; [now rewrite K | now rewrite IH].
Qed.

Lemma max_id_bound (rows : list Event) (base : Z) (r : Event) :
  In r rows -> (id r <= fold_left Z.max (map id rows) base)%Z.
Proof.
  revert base. induction rows as [|x rows IH]; intros base; [intros []|].
  cbn [map fold_left]. intros [->|H]; [|now apply IH].
  clear IH. generalize (Z.max base (id r)) (Z.le_max_r base (id r)).
  induction rows as [|y rows IH]; intros m Hm; cbn [map fold_left];
    [exact Hm|].
  apply IH. lia.
Qed.

Lemma next_id_fresh (rows : list Event) : ~ In (next_id rows) (map id rows).
Proof.
  intros H. apply in_map_iff in H as (r & E & Hin).
  pose proof (max_id_bound rows 0 r Hin). unfold next_id in E. lia.
Qed.

Lemma NoDup_snoc (A : Type) (l : list A) (x : A) :
  NoDup l -> ~ In x l -> NoDup (l ++ [x]).
Proof.
  intros ND Hx. apply NoDup_rev in ND.
  rewrite <- (rev_involutive (l ++ [x])). apply NoDup_rev.
  rewrite rev_app_distr. simpl. constructor; [|exact ND].
  intros H. apply Hx. now apply in_rev.
Qed.

(** Both keys of the table, the URL and the id, stay free of repetitions
    through one row of the import, whatever the row runs into. *)
Lemma import_row_keys (st : import_state) (rf : dict str * fault) :
  NoDup (map url (committed (db st))) ->
  NoDup (map id (committed (db st))) ->
  NoDup (map url (view (db st))) ->
  NoDup (map id (view (db st))) ->
  let st' := import_row fromisoformat utcnow st rf in
  committed (db st') = committed (db st) /\
  NoDup (map url (view (db st'))) /\
  NoDup (map id (view (db st'))).
Proof.
  intros CU CI VU VI. destruct rf as [row [| |message]];
    unfold import_row; cbn [db committed view rollback].
  - destruct (first_by_url _ _) as [existing|] eqn:F;
      cbn [db committed view].
    + rewrite change_first_urls, change_first_ids by reflexivity. auto.
    + rewrite !map_app. cbn [map url id new_event].
      split; [reflexivity|]. split.
      * apply NoDup_snoc; [exact VU|]. now apply first_by_url_none.
      * apply NoDup_snoc; [exact VI|]. apply next_id_fresh.
  - auto.
  - auto.
Qed.

Lemma import_rows_keys (rows : list (dict str * fault))
      (st : import_state) :
  NoDup (map url (committed (db st))) ->
  NoDup (map id (committed (db st))) ->
  NoDup (map url (view (db st))) ->
  NoDup (map id (view (db st))) ->
  let st' := fold_left (import_row fromisoformat utcnow) rows st in
  committed (db st') = committed (db st) /\
  NoDup (map url (view (db st'))) /\
  NoDup (map id (view (db st'))).
Proof.
  revert st. induction rows as [|rf rows IH]; intros st CU CI VU VI;
    cbn [fold_left]; [auto|].
  destruct (import_row_keys st rf CU CI VU VI) as (C & U' & I').
  cbv zeta in C, U', I'.
  destruct (IH (import_row fromisoformat utcnow st rf)) as (C2 & U2 & I2);
    try rewrite C; try assumption.
  cbv zeta in *. rewrite C2, C. auto.
Qed.

(** If no URL and no id occurs twice in the table before the import, none
    does in the table the import leaves, whatever the rows run into and
    however the request ends. *)
Theorem import_keeps_keys_unique (rows0 : list Event)
        (rows : list (dict str * fault)) (late : option str) :
  NoDup (map url rows0) ->
  NoDup (map id rows0) ->
  let table :=
    table_of (handle_csv_import fromisoformat utcnow rows0 rows late) in
  NoDup (map url table) /\ NoDup (map id table).
Proof.
  intros U0 I0. unfold handle_csv_import.
  destruct (import_rows_keys rows
              {| db := {| committed := rows0; view := rows0 |};
                 imported := 0; skipped := 0; errors := [] |}
              U0 I0 U0 I0) as (C & U' & I').
  cbv zeta in C, U', I'. cbn [db committed] in C.
  destruct late as [message|]; cbn [table_of commit rollback committed].
  - rewrite C. auto.
  - auto.
Qed.
End ImportKeys.

Section ImportKeysExamples.
Import events events_laws events_spec.
Local Open Scope string_scope.

Lemma import_keeps_keys_unique_witness :
  let rows := [(scraped_row, NoFault);
               ([(u "url", u "https://teskerti.tn/event/43")], NoFault);
               (scraped_row, IntegrityFault);
               ([(u "url", u "https://teskerti.tn/event/44")], NoFault)] in
  NoDup (map url [pending_event]) /\
  NoDup (map id [pending_event]) /\
  let table :=
    table_of (handle_csv_import sample_fromisoformat sample_utcnow
                [pending_event] rows None) in
  NoDup (map url table) /\ NoDup (map id table).
Proof.
  intros rows.
  assert (U0 : NoDup (map url [pending_event])).
  { constructor; [intros [] | constructor]. }
  assert (I0 : NoDup (map id [pending_event])).
  { constructor; [intros [] | constructor]. }
  split; [exact U0|]. split; [exact I0|].
  exact (import_keeps_keys_unique sample_fromisoformat sample_utcnow
           [pending_event] rows None U0 I0).
Defined.
End ImportKeysExamples.

(** ** The import: what a failure discards, what an import keeps *)

Section ImportFrame.
Import events events_laws.
Local Open Scope string_scope.
Local Open Scope list_scope.

Variable fromisoformat : str -> option datetime.
Variable utcnow : datetime.

Lemma import_row_db (st st' : import_state) (rf : dict str * fault) :
  db st = db st' ->
  db (import_row fromisoformat utcnow st rf)
  = db (import_row fromisoformat utcnow st' rf).
Proof.
  intros E. destruct rf as [row [| |message]]; unfold import_row.
  - rewrite E. now destruct (first_by_url _ _).
  - cbn [db]. now rewrite E.
  - exact E.
Qed.

Lemma import_rows_db (rows : list (dict str * fault))
      (st st' : import_state) :
  db st = db st' ->
  db (fold_left (import_row fromisoformat utcnow) rows st)
  = db (fold_left (import_row fromisoformat utcnow) rows st').
Proof.
  revert st st'. induction rows as [|rf rows IH]; intros st st' E;
    cbn [fold_left]; [exact E|].
  apply IH. now apply import_row_db.
Qed.

Lemma import_row_committed (st : import_state) (rf : dict str * fault) :
  committed (db (import_row fromisoformat utcnow st rf))
  = committed (db st).
Proof.
  destruct rf as [row [| |message]]; unfold import_row; try reflexivity.
  now destruct (first_by_url _ _).
Qed.

Lemma import_rows_committed (rows : list (dict str * fault))
      (st : import_state) :
  committed (db (fold_left (import_row fromisoformat utcnow) rows st))
  = committed (db st).
Proof.
  revert st. induction rows as [|rf rows IH]; intros st; cbn [fold_left];
    [reflexivity|].
  now rewrite IH, import_row_committed.
Qed.

(** Nothing is committed before the end of the loop, so a failure throws
    away the whole import so far: an [IntegrityError] on a row leaves the
    table the import of the rows after it alone would leave, and an
    exception outside the per-row handler ends the request with the
    answer 500 and the table as it was. *)
Theorem import_failure_discards_pending :
  (forall (rows0 : list Event) (rows1 rows2 : list (dict str * fault))
          (row : dict str),
      table_of (handle_csv_import fromisoformat utcnow rows0
                  (rows1 ++ (row, IntegrityFault) :: rows2) None)
      = table_of (handle_csv_import fromisoformat utcnow rows0 rows2 None))
  /\
  (forall (rows0 : list Event) (rows : list (dict str * fault))
          (message : str),
      handle_csv_import fromisoformat utcnow rows0 rows (Some message)
      = Abort500 rows0 (u "Error importing CSV: " ++ message)).
Proof.
  split.
  - intros rows0 rows1 rows2 row. unfold handle_csv_import.
    cbn [table_of commit committed]. f_equal.
    rewrite fold_left_app. cbn [fold_left].
    apply import_rows_db. unfold import_row at 1. cbn [db]. unfold rollback.
    now rewrite import_rows_committed.
  - intros rows0 rows message. unfold handle_csv_import, rollback.
    cbn [committed]. now rewrite import_rows_committed.
Qed.

(** The ids and URLs of the view extend those of the table at the start. *)
Lemma import_row_extends (rows0 : list Event) (st : import_state)
      (rf : dict str * fault) :
  committed (db st) = rows0 ->
  (exists more, map id (view (db st)) = map id rows0 ++ more) ->
  (exists more, map url (view (db st)) = map url rows0 ++ more) ->
  let st' := import_row fromisoformat utcnow st rf in
  (exists more, map id (view (db st')) = map id rows0 ++ more) /\
  (exists more, map url (view (db st')) = map url rows0 ++ more).
Proof.
  intros C (mi & Ei) (mu & Eu).
  destruct rf as [row [| |message]]; unfold import_row;
    cbn [db view rollback].
  - destruct (first_by_url _ _); cbn [db view].
    + rewrite change_first_ids, change_first_urls by reflexivity. eauto.
    + rewrite !map_app, Ei, Eu, <- !app_assoc. eauto.
  - rewrite C. split; exists []; now rewrite app_nil_r.
  - eauto.
Qed.

Lemma import_rows_extend (rows0 : list Event)
      (rows : list (dict str * fault)) (st : import_state) :
  committed (db st) = rows0 ->
  (exists more, map id (view (db st)) = map id rows0 ++ more) ->
  (exists more, map url (view (db st)) = map url rows0 ++ more) ->
  let st' := fold_left (import_row fromisoformat utcnow) rows st in
  (exists more, map id (view (db st')) = map id rows0 ++ more) /\
  (exists more, map url (view (db st')) = map url rows0 ++ more).
Proof.
  revert st. induction rows as [|rf rows IH]; intros st C Hi Hu;
    cbn [fold_left]; [auto|].
  destruct (import_row_extends rows0 st rf C Hi Hu) as [Hi' Hu'].
  apply IH; try assumption. now rewrite import_row_committed.
Qed.

(** A stored row whose URL no row of the file carries stays in the view. *)
Lemma import_rows_untouched (rows : list (dict str * fault))
      (st : import_state) (r : Event) :
  In r (view (db st)) -> In r (committed (db st)) ->
  ~ In (url r) (map (fun rf => row_url (fst rf)) rows) ->
  In r (view (db (fold_left (import_row fromisoformat utcnow) rows st))).
Proof.
  revert st. induction rows as [|[row f] rows IH]; intros st V C N;
    cbn [fold_left]; [exact V|].
  cbn [map fst] in N.
  apply IH.
  - destruct f as [| |message]; unfold import_row; cbn [db view rollback].
    + fold (row_url row). destruct (first_by_url _ _); cbn [db view].
      * apply change_first_others; [exact V|]. intros E. apply N. now left.
      * apply in_or_app. now left.
    + exact C.
    + exact V.
  - now rewrite import_row_committed.
  - intros H. apply N. now right.
Qed.

(** The import never deletes an event and never changes the id or the
    URL of a stored event, whatever the rows run into and however the
    request ends: the ids and the URLs of the table it leaves start with
    those of the table before, in the same order; and a stored event whose
    URL no row of the file carries is left exactly as it was. *)
Theorem import_never_deletes (rows0 : list Event)
        (rows : list (dict str * fault)) (late : option str) :
  let table :=
    table_of (handle_csv_import fromisoformat utcnow rows0 rows late) in
  (exists more, map id table = map id rows0 ++ more) /\
  (exists more, map url table = map url rows0 ++ more) /\
  (forall r, In r rows0 ->
             ~ In (url r) (map (fun rf => row_url (fst rf)) rows) ->
             In r table).
Proof.
  unfold handle_csv_import.
  set (st0 := {| db := {| committed := rows0; view := rows0 |};
                 imported := 0%Z; skipped := 0%Z; errors := [] |}).
  destruct late as [message|]; unfold commit, rollback;
    cbn [table_of committed].
  - rewrite import_rows_committed. cbn.
    split; [|split]; try (exists []; now rewrite app_nil_r). auto.
  - destruct (import_rows_extend rows0 rows st0) as [Hi Hu];
      try reflexivity; try (exists []; now rewrite app_nil_r).
    split; [exact Hi|]. split; [exact Hu|].
    intros r Hin N. now apply import_rows_untouched.
Qed.
End ImportFrame.

(** ** The import: importing a file twice *)

Section Reimport.
Import events events_laws.
Local Open Scope string_scope.
Local Open Scope list_scope.

Variable fromisoformat : str -> option datetime.
Variable utcnow : datetime.



End Reimport.

(** ** The heat-map routes *)

Section HeatmapRoutes.
Import heatmap heatmap_spec routes_heatmap.
Local Open Scope string_scope.
Local Open Scope list_scope.

Variable isoformat : events.datetime -> str.

Lemma data_array_tabulate (f : str -> bucket) (ks ks' : list str) :
  (forall k, In k ks' -> In k ks) ->
  data_array (tabulate f ks) ks' = Some (tabulate f ks').
Proof.
  induction ks' as [|k ks' IH]; intros H; [reflexivity|].
  cbn [data_array]. rewrite dict_get_tabulate.
  assert (M : list_mem k ks = true) by (apply list_mem_In, H; now left).
  rewrite M, IH; [reflexivity|]. intros k' Hk'. apply H. now right.
Qed.

Lemma filter_filter (A : Type) (f g : A -> bool) (l : list A) :
  filter f (filter g l) = filter (fun x => g x && f x) l.
Proof.
  induction l as [|x l IH]; [reflexivity|]. cbn [filter].
  destruct (g x); cbn [filter andb]; [|exact IH].
  destruct (f x); now rewrite IH.
Qed.

Lemma falls_in_governorate (g : str) (e : event) :
  In g TUNISIAN_GOVERNORATES ->
  falls_in g e = str_eqb (strip (get_city e)) g.
Proof.
  intros Hg. unfold falls_in. rewrite bucket_of_char.
  destruct (list_mem (strip (get_city e)) TUNISIAN_GOVERNORATES) eqn:M;
    [reflexivity|].
  symmetry. apply str_eqb_neq. intros E. rewrite E in M.
  apply list_mem_In in Hg. congruence.
Qed.

(** The events of the aggregation that fall in [g] are as many as the
    approved events of the table whose stripped city is [g]. *)
Lemma matching_approved (g : str) (table : list events.Event) :
  In g TUNISIAN_GOVERNORATES ->
  len (matching g (map (to_dict isoformat)
                     (filter_by_status (u "approved") table)))
  = len (approved_in g table).
Proof.
  intros Hg. unfold matching, approved_in, filter_by_status, len.
  rewrite filter_map_comm, length_map, filter_filter.
  do 2 f_equal. apply filter_ext. intros r. f_equal.
  now rewrite falls_in_governorate.
Qed.

(** [HeatmapData.get] always answers (no key of the taxonomy is missing
    when the array form is built); the array lists the buckets of the
    mapping in taxonomy order; and a governorate's score is the number of
    stored events with status ['approved'] whose stripped city is its
    name, so that pending and rejected events count for nothing. *)
Theorem heatmap_data_route (table : list events.Event) :
  exists answer,
    HeatmapData_get isoformat table = Some answer /\
    hm_data answer = hm_governorates answer /\
    keys (hm_data answer) = TUNISIAN_GOVERNORATES /\
    (forall g, In g TUNISIAN_GOVERNORATES ->
               exists b, dict_get (hm_governorates answer) g = Some b /\
                         score b = len (approved_in g table)) /\
    total_events (hm_summary answer)
    = sum_ints (map (fun gb => score (snd gb)) (hm_data answer)).
Proof.
  unfold HeatmapData_get. rewrite get_heatmap_data_closed.
  rewrite data_array_tabulate by auto.
  eexists. split; [reflexivity|].
  cbn [hm_data hm_governorates hm_summary].
  split; [reflexivity|]. split; [apply keys_tabulate|]. split.
  - intros g Hg. rewrite dict_get_tabulate.
    apply list_mem_In in Hg as M. rewrite M. eexists.
    split; [reflexivity|]. unfold bucket_after. cbn [score].
    now apply matching_approved.
  - unfold get_heatmap_summary. cbn [total_events].
    rewrite calculate_governorate_scores_closed, values_tabulate.
    unfold tabulate. rewrite map_map. reflexivity.
Qed.
End HeatmapRoutes.

(** ** Sorting by decreasing count *)

Section SortedDesc.
Import routes_heatmap.
Local Open Scope list_scope.

Lemma insert_desc_perm (x : str * Z) (l : list (str * Z)) :
  Permutation (insert_desc x l) (x :: l).
Proof.
  induction l as [|y l IH]; simpl; [reflexivity|].
  destruct (snd y <=? snd x)%Z; [reflexivity|].
  rewrite IH. apply perm_swap.
Qed.

Lemma sorted_desc_perm (l : list (str * Z)) : Permutation (sorted_desc l) l.
Proof.
  induction l as [|x l IH]; simpl; [reflexivity|].
  rewrite insert_desc_perm. now constructor.
Qed.

Lemma insert_desc_sorted (x : str * Z) (l : list (str * Z)) :
  StronglySorted not_below l -> StronglySorted not_below (insert_desc x l).
Proof.
  induction 1 as [|y l S IH F]; simpl.
  - repeat constructor.
  - destruct (Z.leb_spec (snd y) (snd x)) as [Hle|Hgt].
    + constructor; [now constructor|].
      constructor; [exact Hle|].
      eapply Forall_impl; [|exact F]. unfold not_below. intros; lia.
    + constructor; [exact IH|].
      apply Forall_forall. intros z Hz.
      apply (Permutation_in _ (insert_desc_perm x l)) in Hz.
      destruct Hz as [<-|Hz]; [unfold not_below; lia|].
      rewrite Forall_forall in F. now apply F.
Qed.

Lemma sorted_desc_sorted (l : list (str * Z)) :
  StronglySorted not_below (sorted_desc l).
Proof.
  induction l as [|x l IH]; simpl; [constructor|].
  now apply insert_desc_sorted.
Qed.

Lemma insert_desc_stable (c : Z) (x : str * Z) (l : list (str * Z)) :
  with_count c (insert_desc x l) = with_count c (x :: l).
Proof.
  unfold with_count. induction l as [|y l IH]; [reflexivity|].
  cbn [insert_desc]. destruct (Z.leb_spec (snd y) (snd x)); [reflexivity|].
  cbn [filter] in *. rewrite IH.
  destruct (Z.eqb_spec (snd x) c), (Z.eqb_spec (snd y) c); try reflexivity.
  lia.
Qed.

Lemma sorted_desc_stable (c : Z) (l : list (str * Z)) :
  with_count c (sorted_desc l) = with_count c l.
Proof.
  induction l as [|x l IH]; [reflexivity|].
  cbn [sorted_desc fold_right]. rewrite insert_desc_stable.
  unfold with_count in *. cbn [filter]. fold (sorted_desc l).
  now rewrite IH.
Qed.

Lemma sorted_split (l1 l2 : list (str * Z)) :
  StronglySorted not_below (l1 ++ l2) ->
  StronglySorted not_below l1 /\
  forall a b, In a l1 -> In b l2 -> not_below a b.
Proof.
  induction l1 as [|x l1 IH]; cbn [app]; intros S.
  - split; [constructor | intros a b []].
  - apply StronglySorted_inv in S as [S F].
    destruct (IH S) as [S1 D]. split.
    + constructor; [exact S1|].
      apply Forall_forall. intros z Hz. rewrite Forall_forall in F.
      apply F. apply in_or_app. now left.
    + intros a b [<-|Ha] Hb; [|now apply D].
      rewrite Forall_forall in F. apply F. apply in_or_app. now right.
Qed.
End SortedDesc.

Section TopGovernorates.
Import heatmap heatmap_spec routes_heatmap.
Local Open Scope string_scope.
Local Open Scope list_scope.

Variable isoformat : events.datetime -> str.

Lemma stats_scores (table : list events.Event) :
  map (fun gd => (fst gd, score (snd gd)))
    (get_heatmap_data (map (to_dict isoformat)
                         (filter_by_status (u "approved") table)))
  = tabulate (fun g => len (approved_in g table)) TUNISIAN_GOVERNORATES.
Proof.
  rewrite get_heatmap_data_closed.
  rewrite (map_tabulate _ _ _ (fun _ b => score b)).
  apply tabulate_ext. intros g Hg. unfold bucket_after. cbn [score].
  apply matching_approved. exact Hg.
Qed.

(** [top_governorates] lists ten distinct governorates with their
    counts of approved events, by decreasing count; no governorate left
    out has a higher count than a listed one; and governorates with equal
    counts come in taxonomy order, the listed ones being the first of
    them. *)
Theorem top_governorates_spec (table : list events.Event) :
  let top := snd (HeatmapStats_get isoformat table) in
  let scores :=
    tabulate (fun g => len (approved_in g table)) TUNISIAN_GOVERNORATES in
  List.length top = 10%nat /\
  StronglySorted not_below top /\
  NoDup (map fst top) /\
  (forall g c, In (g, c) top ->
               In g TUNISIAN_GOVERNORATES /\ c = len (approved_in g table)) /\
  (forall g, In g TUNISIAN_GOVERNORATES -> ~ In g (map fst top) ->
             forall g' c', In (g', c') top ->
                           (len (approved_in g table) <= c')%Z) /\
  (forall c, exists rest, with_count c scores = with_count c top ++ rest).
Proof.
  intros top scores.
  assert (T : top = firstn 10 (sorted_desc scores)).
  { unfold top, HeatmapStats_get. cbn [snd]. rewrite stats_scores.
    reflexivity. }
  pose proof (sorted_desc_perm scores) as P.
  pose proof (sorted_desc_sorted scores) as S.
  pose proof (firstn_skipn 10 (sorted_desc scores)) as Split.
  rewrite <- T in Split.
  set (tail := skipn 10 (sorted_desc scores)) in *.
  rewrite <- Split in P, S.
  destruct (sorted_split _ _ S) as [S1 D].
  assert (K : map fst scores = TUNISIAN_GOVERNORATES).
  { apply (keys_tabulate Z). }
  assert (Sc : forall g c, In (g, c) scores <->
                In g TUNISIAN_GOVERNORATES /\ c = len (approved_in g table)).
  { intros g c. unfold scores, tabulate. rewrite in_map_iff. split.
    - intros (g0 & [= <- <-] & H). split; [exact H | reflexivity].
    - intros [H ->]. exists g. split; [reflexivity | exact H]. }
  split; [|split; [|split; [|split; [|split]]]].
  - rewrite T, length_firstn.
    rewrite (Permutation_length (sorted_desc_perm scores)).
    unfold scores, tabulate. rewrite length_map. reflexivity.
  - exact S1.
  - assert (ND : NoDup (map fst (top ++ tail))).
    { apply (Permutation_NoDup (l := map fst scores)).
      - apply Permutation_map. apply Permutation_sym. exact P.
      - rewrite K. apply governorates_NoDup. }
    rewrite map_app in ND. apply NoDup_app_remove_r in ND. exact ND.
  - intros g c H. apply Sc.
    apply (Permutation_in _ P). apply in_or_app. left. exact H.
  - intros g Hg Hn g' c' H'.
    assert (Hs : In (g, len (approved_in g table)) (top ++ tail)).
    { apply (Permutation_in _ (Permutation_sym P)). apply Sc.
      split; [exact Hg | reflexivity]. }
    apply in_app_or in Hs as [Hs|Hs].
    + exfalso. apply Hn. apply in_map_iff.
      exists (g, len (approved_in g table)).
      split; [reflexivity | exact Hs].
    + apply (D _ _ H' Hs).
  - intros c. exists (with_count c tail).
    rewrite <- (sorted_desc_stable c scores), <- Split.
    unfold with_count. apply filter_app.
Qed.
End TopGovernorates.
